(** * build_imdb_dataset.py: the IMDb movie table builder

    A shallow embedding of [data/2025-W48/build_imdb_dataset.py] and the
    properties of its merge / filter / resolve / disambiguate pipeline.

    Conventions of the embedding.
    - A pandas column cell is an [option]: [None] is the missing value
      (NaN / pd.NA, the token \N of the TSV files).
    - A [frame] is a list of rows carrying their index label; [merge] gives
      its result a fresh RangeIndex, boolean indexing keeps the labels.
    - Integer columns are [Z], text columns are [string] (characters are
      code points below 256), [averageRating] is a binary64 float.  The
      records are what [read_csv] has parsed: a text column holds text (a
      column whose cells all read as numbers is a number column for pandas
      and has no place in these records).
    - The type pandas gives a text column of a title archive matters where
      the script uses the column: a column without any present cell, in an
      archive with rows, is a column of floats ([read_dtype]), which the
      merges refuse as key beside a column of strings and on which [.str]
      raises.
    - Python sets of identifiers are [gset string]; the order in which
      CPython enumerates a set is a parameter ([PyHash]).
    - Console output, downloads and the cached CSV file live in a [world]
      that is threaded through a small state-and-exception monad.
    - Downloads and parsing always succeed and deliver the records of
      [remote]; the written table is modelled up to the serialisation to
      CSV text. *)

From Stdlib Require Import ZArith Ascii String PrimFloat FloatOps SpecFloat.
From stdpp Require Import base option list strings gmap sets pretty sorting.

Set Warnings "-clear-no-such-hyp".

Local Open Scope string_scope.
Local Open Scope nat_scope.
Local Open Scope list_scope.
Local Open Scope stdpp_scope.

(** ** Python string methods *)

Module Str.

(** [s.split(sep)] for a one-character separator: never the empty list. *)
Fixpoint split (sep : ascii) (s : string) : list string :=
  match s with
  | EmptyString => [EmptyString]
  | String c s' =>
      if Ascii.eqb c sep then EmptyString :: split sep s'
      else match split sep s' with
           | [] => [String c EmptyString]
           | t :: ts => String c t :: ts
           end
  end.

(** [sep.join(l)] *)
Fixpoint join (sep : string) (l : list string) : string :=
  match l with
  | [] => EmptyString
  | [x] => x
  | x :: l' => x +:+ sep +:+ join sep l'
  end.

(** [str.isspace] on one character (code points below 256). *)
Definition is_space (c : ascii) : bool :=
  let n := N_of_ascii c in
  ((9 <=? n) && (n <=? 13) || (28 <=? n) && (n <=? 32)
   || (n =? 133) || (n =? 160))%N.

Fixpoint lstrip (s : string) : string :=
  match s with
  | EmptyString => EmptyString
  | String c s' => if is_space c then lstrip s' else s
  end.

Fixpoint rstrip (s : string) : string :=
  match s with
  | EmptyString => EmptyString
  | String c s' =>
      match rstrip s' with
      | EmptyString => if is_space c then EmptyString else String c EmptyString
      | t => String c t
      end
  end.

(** [s.strip()] *)
Definition strip (s : string) : string := rstrip (lstrip s).

Definition comma : ascii := ","%char.

End Str.

(** ** Tables *)

(** A DataFrame or Series: rows with their index labels. *)
Abbreviation frame R := (list (nat * R)) (only parsing).

(** A fresh RangeIndex 0, 1, 2, ... *)
Definition range_index {R} (rows : list R) : frame R :=
  zip (seq 0 (length rows)) rows.

Definition labels {R} (df : frame R) : list nat := df.*1.

Record basics_row := BasicsRow {
  b_tconst : option string;
  b_titleType : option string;
  b_primaryTitle : option string;
  b_originalTitle : option string;
  b_isAdult : option Z;
  b_startYear : option Z;
  b_endYear : option Z;
  b_runtimeMinutes : option Z;
  b_genres : option string }.

Record ratings_row := RatingsRow {
  r_tconst : option string;
  r_averageRating : option float;
  r_numVotes : option Z }.

Record crew_row := CrewRow {
  c_tconst : option string;
  c_directors : option string;
  c_writers : option string }.

(** A row of the merged frame [df]. *)
Record title := Title {
  tconst : option string;
  titleType : option string;
  primaryTitle : option string;
  originalTitle : option string;
  isAdult : option Z;
  startYear : option Z;
  endYear : option Z;
  runtimeMinutes : option Z;
  genres : option string;
  averageRating : option float;
  numVotes : option Z;
  directors : option string;
  writers : option string }.

(** A row of the written table: [titleType], [isAdult], [endYear] and
    [tconst] are dropped. *)
Record movie := Movie {
  m_primaryTitle : option string;
  m_originalTitle : option string;
  m_startYear : option Z;
  m_runtimeMinutes : option Z;
  m_genres : option string;
  m_averageRating : option float;
  m_numVotes : option Z;
  m_directors : option string;
  m_writers : option string }.

(** ** Merging the title tables *)

(** [basics.merge(ratings, on="tconst", how="inner")]: one row per pair of
    rows with equal keys, in the order of the left keys (missing keys match
    each other, as in pandas). *)
Definition merge_inner (basics : list basics_row) (ratings : list ratings_row)
  : list (basics_row * ratings_row) :=
  b ← basics;
  r ← filter (λ r, r_tconst r = b_tconst b) ratings;
  [(b, r)].

Definition join_row (br : basics_row * ratings_row)
    (d w : option string) : title :=
  let '(b, r) := br in
  {| tconst := b_tconst b; titleType := b_titleType b;
     primaryTitle := b_primaryTitle b; originalTitle := b_originalTitle b;
     isAdult := b_isAdult b; startYear := b_startYear b;
     endYear := b_endYear b; runtimeMinutes := b_runtimeMinutes b;
     genres := b_genres b;
     averageRating := r_averageRating r; numVotes := r_numVotes r;
     directors := d; writers := w |}.

(** [df.merge(crew, on="tconst", how="left")]: a left row without a match
    is kept, with missing values in the columns of the right table. *)
Definition merge_left (df : list (basics_row * ratings_row))
    (crew : list crew_row) : list title :=
  br ← df;
  match filter (λ c, c_tconst c = b_tconst br.1) crew with
  | [] => [join_row br None None]
  | cs => (λ c, join_row br (c_directors c) (c_writers c)) <$> cs
  end.

Definition merge_titles (basics : list basics_row)
    (ratings : list ratings_row) (crew : list crew_row) : frame title :=
  range_index (merge_left (merge_inner basics ratings) crew).

(** ** The title filter *)

(** A comparison with a missing value is false. *)
Definition eq_cell `{EqDecision A} (c : option A) (v : A) : bool :=
  match c with Some x => bool_decide (x = v) | None => false end.

Definition ge_cell (c : option Z) (v : Z) : bool :=
  match c with Some x => (v <=? x)%Z | None => false end.

Definition notna {A} (c : option A) : bool :=
  match c with Some _ => true | None => false end.

Definition title_mask (t : title) : bool :=
  eq_cell (isAdult t) 0%Z
  && eq_cell (titleType t) "movie"
  && notna (runtimeMinutes t)
  && ge_cell (startYear t) 1930
  && ge_cell (numVotes t) 1000.

(** [df[mask].copy()] *)
Definition filter_titles (df : frame title) : frame title :=
  filter (λ lr, title_mask lr.2 = true) df.

(** ** Series operations *)

(** [s.dropna()] *)
Definition dropna {A} (s : frame (option A)) : frame A :=
  omap (λ lc, (λ x, (lc.1, x)) <$> lc.2) s.

(** [s.explode()]: one row per list element under the same label; an
    empty list gives one missing value. *)
Definition explode {A} (s : frame (list A)) : frame (option A) :=
  lx ← s;
  match lx.2 with
  | [] => [(lx.1, None)]
  | xs => (λ x, (lx.1, Some x)) <$> xs
  end.

(** Element-wise application that keeps the labels. *)
Definition smap {A B} (f : A → B) (s : frame A) : frame B :=
  (λ lx, (lx.1, f lx.2)) <$> s.

(** [df[column]] *)
Definition column {R A} (f : R → A) (df : frame R) : frame A := smap f df.

(** ** Python sets of identifiers *)

(** The order in which CPython enumerates a set of strings depends on the
    hash seed of the process. *)
Class PyHash := {
  set_iter : gset string → list string;
  set_iter_perm : ∀ X, set_iter X ≡ₚ elements X }.

(** [series.isin(values)] on one cell: pandas materialises [list(values)]
    and tests membership. *)
Definition isin `{PyHash} (x : string) (values : gset string) : bool :=
  bool_decide (x ∈ set_iter values).

(** ** Collecting director and writer IDs *)

(** [df[column].dropna().str.split(",").explode().str.strip().dropna()]
    followed by [ids[ids != ""]]. *)
Definition column_ids (col : frame (option string)) : list string :=
  let ids := dropna (smap (fmap Str.strip)
                       (explode (smap (Str.split Str.comma) (dropna col)))) in
  filter (λ i, i ≠ EmptyString) ids.*2.

Definition collect_ids (df : frame title) : gset string :=
  foldl (λ relevant_ids col, relevant_ids ∪ list_to_set (column_ids col))
        ∅ [column directors df; column writers df].

(** ** Scanning name.basics *)

Record person := Person {
  nconst : option string;
  primaryName : option string }.

Abbreviation chunk := (list person) (only parsing).

Definition chunksize : N := 250000.

(** The chunks a reader with [chunksize=size] yields for a file. *)
Fixpoint read_chunks_go {A} (size room : N) (cur : list A) (rows : list A)
  : list (list A) :=
  match rows with
  | [] => match cur with [] => [] | _ => [reverse cur] end
  | r :: rows' =>
      if (room <=? 1)%N then reverse (r :: cur) :: read_chunks_go size size [] rows'
      else read_chunks_go size (room - 1) (r :: cur) rows'
  end.

Definition read_chunks {A} (size : N) (rows : list A) : list (list A) :=
  read_chunks_go size size [] rows.

Inductive message :=
  | Downloading (name : string)
  | FinishedDownloading (name : string)
  | Parsing (name : string)
  | Loaded (rows : nat) (name : string)
  | NoRelevantIds
  | ScanningChunks
  | Processed (rows : N) (missing : nat)
  | FoundAll
  | WarnNotFound (missing : nat)
  | Matched (rows : nat)
  | UsingCached
  | Building
  | MergingTables
  | ApplyingFilters
  | CollectingIds
  | UniqueIds (n : nat)
  | Disambiguating
  | NoRelevantPeople
  | BuildingLookup
  | WritingCsv.

(** A call [log(message, detail=d)] that is still to be printed. *)
Abbreviation log_entry := (bool * message)%type (only parsing).

(** The variables of the scanning loop, with what it has logged and, for
    every chunk it pulled from the reader, the outstanding set at the
    moment of the pull. *)
Record scan_state := ScanState {
  frames : list (list person);
  remaining_ids : gset string;
  total_matched : nat;
  scan_log : list log_entry;
  pulls : list (gset string) }.

(** [chunk.dropna(subset=["nconst", "primaryName"])] *)
Definition dropna_people (c : chunk) : chunk :=
  filter (λ p, is_Some (nconst p) ∧ is_Some (primaryName p)) c.

Definition nconst_isin `{PyHash} (values : gset string) (p : person) : bool :=
  match nconst p with Some i => isin i values | None => false end.

(** [set(matches["nconst"])] *)
Definition nconst_set (rows : list person) : gset string :=
  list_to_set (omap nconst rows).

(** The body of the loop, for the chunk numbered [idx]; [true] is [break]. *)
Definition scan_chunk `{PyHash} (idx : nat) (c : chunk) (st : scan_state)
  : scan_state * bool :=
  let c := dropna_people c in
  let matches := filter (λ p, nconst_isin (remaining_ids st) p = true) c in
  let st1 :=
    match matches with
    | [] => st
    | _ => {| frames := frames st ++ [matches];
              remaining_ids := remaining_ids st ∖ nconst_set matches;
              total_matched := total_matched st + length matches;
              scan_log := scan_log st;
              pulls := pulls st |}
    end in
  let st2 :=
    if decide (idx `mod` 10 = 0)
    then {| frames := frames st1; remaining_ids := remaining_ids st1;
            total_matched := total_matched st1;
            scan_log := scan_log st1 ++
              [(true, Processed (N.of_nat idx * chunksize)
                        (size (remaining_ids st1)))];
            pulls := pulls st1 |}
    else st1 in
  if decide (remaining_ids st2 = ∅)
  then ({| frames := frames st2; remaining_ids := remaining_ids st2;
           total_matched := total_matched st2;
           scan_log := scan_log st2 ++ [(true, FoundAll)];
           pulls := pulls st2 |}, true)
  else (st2, false).

(** [for idx, chunk in enumerate(reader, start=1)] *)
Fixpoint scan `{PyHash} (reader : list chunk) (idx : nat) (st : scan_state)
  : scan_state :=
  match reader with
  | [] => st
  | c :: reader' =>
      let st := {| frames := frames st; remaining_ids := remaining_ids st;
                   total_matched := total_matched st;
                   scan_log := scan_log st;
                   pulls := pulls st ++ [remaining_ids st] |} in
      let '(st', stop) := scan_chunk idx c st in
      if stop then st' else scan reader' (S idx) st'
  end.

Definition scan_init (relevant_ids : gset string) : scan_state :=
  {| frames := []; remaining_ids := relevant_ids; total_matched := 0;
     scan_log := []; pulls := [] |}.

(** [pd.concat(frames, ignore_index=True)] (an empty frame when there is
    nothing to concatenate). *)
Definition concat_frames (fs : list (list person)) : list person := mjoin fs.

(** The part of [load_relevant_people] after the download: the frame it
    returns and everything it logs. *)
Definition scan_people `{PyHash} (relevant_ids : gset string)
    (reader : list chunk) : list person * scan_state :=
  let st := scan reader 1 (scan_init relevant_ids) in
  let relevant_people := concat_frames (frames st) in
  let warn :=
    if decide (remaining_ids st = ∅) then []
    else [(false, WarnNotFound (size (remaining_ids st)))] in
  (relevant_people,
   {| frames := frames st; remaining_ids := remaining_ids st;
      total_matched := total_matched st;
      scan_log := scan_log st ++ warn ++ [(true, Matched (total_matched st))];
      pulls := pulls st |}).

(** ** Disambiguating duplicate names *)

Definition count_name (n : string) (names : list (option string)) : nat :=
  length (filter (λ c, c = Some n) names).

Definition more_frequent (a b : string * nat) : Prop := (b.2 ≤ a.2)%nat.

Global Instance more_frequent_dec a b : Decision (more_frequent a b) :=
  _ : Decision (b.2 ≤ a.2)%nat.

(** [names.value_counts()]: the distinct non-missing names with how often
    each occurs, most frequent first. *)
Definition value_counts (names : list (option string)) : list (string * nat) :=
  merge_sort more_frequent
    ((λ n, (n, count_name n names)) <$> remove_dups (omap id names)).

(** [dup_counts[dup_counts > 1].index] *)
Definition duplicated_names (names : list (option string)) : list string :=
  (filter (λ nc, (1 < nc.2)%nat) (value_counts names)).*1.

(** The closure [disambiguate] with its dictionary [counter]. *)
Definition disambiguate (dups : list string) (counter : gmap string nat)
    (name : option string) : option string * gmap string nat :=
  match name with
  | None => (None, counter)
  | Some n =>
      if decide (n ∉ dups) then (Some n, counter)
      else
        let k := default 0 (counter !! n) + 1 in
        (Some (n +:+ " (" +:+ pretty k +:+ ")"), <[n := k]> counter)
  end.

(** [names.apply(disambiguate)]: the cells are visited in order. *)
Fixpoint apply_disambiguate (dups : list string) (counter : gmap string nat)
    (names : list (option string)) : list (option string) :=
  match names with
  | [] => []
  | name :: names' =>
      let '(name', counter') := disambiguate dups counter name in
      name' :: apply_disambiguate dups counter' names'
  end.

Definition set_primaryName (p : person) (name : option string) : person :=
  {| nconst := nconst p; primaryName := name |}.

(** The branch [if not relevant_people.empty] of the build. *)
Definition disambiguate_people (relevant_people : list person) : list person :=
  let names := primaryName <$> relevant_people in
  let dups := duplicated_names names in
  zip_with set_primaryName relevant_people (apply_disambiguate dups ∅ names).

(** ** The ID to name lookup *)

(** A Series of names indexed by identifier; the index may repeat. *)
Abbreviation lookup_series := (list (string * string)) (only parsing).

(** [relevant_people[["nconst", "primaryName"]].dropna()
      .set_index("nconst")["primaryName"]] *)
Definition name_map (relevant_people : list person) : lookup_series :=
  omap (λ p, match nconst p, primaryName p with
             | Some i, Some n => Some (i, n)
             | _, _ => None
             end) relevant_people.

Inductive exn := InvalidIndexError | ValueError | AttributeError.

Inductive result (A : Type) :=
  | Ok (a : A)
  | Raise (e : exn).
Arguments Ok {A} a.
Arguments Raise {A} e.

(** [s.map(mapping)] with a Series as mapping: pandas looks the cells up in
    the index of [mapping] and refuses an index with repeated values. *)
Definition series_map (s : frame (option string)) (mapping : lookup_series)
  : result (frame (option string)) :=
  if decide (NoDup mapping.*1)
  then Ok (smap (λ c, c ≫= λ k, (list_to_map mapping : gmap string string) !! k) s)
  else Raise InvalidIndexError.

(** [s.groupby(level=0).agg(",".join)]: one row per label, labels sorted. *)
Definition groupby_join (s : frame string) : frame string :=
  (λ k, (k, Str.join "," (filter (λ lx, lx.1 = k) s).*2))
    <$> merge_sort Nat.le (remove_dups (labels s)).

(** [out.loc[mapped.index] = mapped]: the rows of [out] whose label is in
    the index of [mapped] receive the value at that label. *)
Definition loc_assign (out : frame (option string)) (mapped : frame string)
  : frame (option string) :=
  (λ lc, (lc.1, match (list_to_map mapped : gmap nat string) !! lc.1 with
                | Some v => Some v
                | None => lc.2
                end)) <$> out.

Definition ids_to_names (series : frame (option string))
    (mapping : lookup_series) : result (frame (option string)) :=
  let nonnull := dropna series in
  match series_map (explode (smap (Str.split Str.comma) nonnull)) mapping with
  | Raise e => Raise e
  | Ok looked_up =>
      let mapped := groupby_join (dropna looked_up) in
      let out : frame (option string) := smap (λ _, None) series in
      Ok (loc_assign out mapped)
  end.

Definition with_directors (t : title) (d : option string) : title :=
  {| tconst := tconst t; titleType := titleType t;
     primaryTitle := primaryTitle t; originalTitle := originalTitle t;
     isAdult := isAdult t; startYear := startYear t;
     endYear := endYear t; runtimeMinutes := runtimeMinutes t;
     genres := genres t; averageRating := averageRating t;
     numVotes := numVotes t;
     directors := d; writers := writers t |}.

Definition with_writers (t : title) (w : option string) : title :=
  {| tconst := tconst t; titleType := titleType t;
     primaryTitle := primaryTitle t; originalTitle := originalTitle t;
     isAdult := isAdult t; startYear := startYear t;
     endYear := endYear t; runtimeMinutes := runtimeMinutes t;
     genres := genres t; averageRating := averageRating t;
     numVotes := numVotes t;
     directors := directors t; writers := w |}.

(** [df[column] = series]: the series has the index of [df]. *)
Definition set_directors (df : frame title) (s : frame (option string))
  : frame title :=
  zip_with (λ lt lc, (lt.1, with_directors lt.2 lc.2)) df s.

Definition set_writers (df : frame title) (s : frame (option string))
  : frame title :=
  zip_with (λ lt lc, (lt.1, with_writers lt.2 lc.2)) df s.

(** Dropping [titleType], [isAdult], [endYear] and [tconst]. *)
Definition drop_columns (t : title) : movie :=
  {| m_primaryTitle := primaryTitle t; m_originalTitle := originalTitle t;
     m_startYear := startYear t; m_runtimeMinutes := runtimeMinutes t;
     m_genres := genres t; m_averageRating := averageRating t;
     m_numVotes := numVotes t;
     m_directors := directors t; m_writers := writers t |}.

(** ** Column types *)

(** The title archives are read without [dtype], so [read_csv] infers the
    type of each column from its cells.  For the text columns: an archive
    without rows has columns of type object; in an archive with rows a
    column is of type object when some cell is present, and a column of
    floats (all NaN) when every cell is missing.  Merging and filtering keep
    the type of a column. *)
Inductive dtype := object | float64.

Definition same_dtype (a b : dtype) : bool :=
  match a, b with
  | object, object | float64, float64 => true
  | _, _ => false
  end.

Definition all_missing {A} (cells : list (option A)) : bool :=
  forallb (λ c, negb (notna c)) cells.

Definition read_dtype {A} (cells : list (option A)) : dtype :=
  match cells with
  | [] => object
  | _ => if all_missing cells then float64 else object
  end.

(** What pandas takes the values of a key column for
    ([lib.infer_dtype(values, skipna=False)]). *)
Inductive inferred := inferred_empty | inferred_floating
                    | inferred_string | inferred_mixed.

Definition infer_dtype (dt : dtype) (keys : list (option string)) : inferred :=
  match dt, keys with
  | float64, _ => inferred_floating
  | object, [] => inferred_empty
  | object, _ =>
      if all_missing keys then inferred_floating
      else if forallb notna keys then inferred_string
      else inferred_mixed
  end.

Definition string_like (i : inferred) : bool :=
  match i with inferred_floating => false | _ => true end.

(** [merge] compares the two key columns before it joins: nothing is
    checked when exactly one frame has no rows or when the columns have the
    same type; otherwise a column that holds strings is refused beside one
    that holds none ("You are trying to merge on object and float64
    columns"). *)
Definition coerce_merge_keys (ldt rdt : dtype)
    (lk rk : list (option string)) : result unit :=
  match lk, rk with
  | [], _ :: _ | _ :: _, [] => Ok ()
  | _, _ =>
      if same_dtype ldt rdt then Ok ()
      else if xorb (string_like (infer_dtype ldt lk))
                   (string_like (infer_dtype rdt rk))
           then Raise ValueError
           else Ok ()
  end.

(** The two merges of the build.  The key column of the first result has
    the type of the key column of title.basics. *)
Definition merge_tables (basics : list basics_row)
    (ratings : list ratings_row) (crew : list crew_row)
  : result (frame title) :=
  let tconst_dtype := read_dtype (b_tconst <$> basics) in
  match coerce_merge_keys tconst_dtype (read_dtype (r_tconst <$> ratings))
          (b_tconst <$> basics) (r_tconst <$> ratings) with
  | Raise e => Raise e
  | Ok _ =>
      match coerce_merge_keys tconst_dtype (read_dtype (c_tconst <$> crew))
              ((λ br, b_tconst br.1) <$> merge_inner basics ratings)
              (c_tconst <$> crew) with
      | Raise e => Raise e
      | Ok _ => Ok (merge_titles basics ratings crew)
      end
  end.

(** [series.str]: "Can only use .str accessor with string values". *)
Definition str_accessor (dt : dtype) : result unit :=
  match dt with
  | object => Ok ()
  | float64 => Raise AttributeError
  end.

(** The loop over the columns directors and writers: each has the type
    that the column has in title.crew. *)
Definition collect_ids_typed (crew : list crew_row) (df : frame title)
  : result (gset string) :=
  match str_accessor (read_dtype (c_directors <$> crew)) with
  | Raise e => Raise e
  | Ok _ =>
      match str_accessor (read_dtype (c_writers <$> crew)) with
      | Raise e => Raise e
      | Ok _ => Ok (collect_ids df)
      end
  end.

(** [astype("float32")] on one value: the nearest single precision float,
    ties to even. *)
Definition float32_of (x : float) : float :=
  match Prim2SF x with
  | S754_finite s m e => SF2Prim (binary_round 24 128 s m e)
  | _ => x
  end.

(** [df.astype(DTYPES, errors="ignore")]: the ratings become single
    precision floats; the text and integer columns keep their values (an
    integer column that does not fit its type is left as it is). *)
Definition astype_dtypes (m : movie) : movie :=
  {| m_primaryTitle := m_primaryTitle m; m_originalTitle := m_originalTitle m;
     m_startYear := m_startYear m; m_runtimeMinutes := m_runtimeMinutes m;
     m_genres := m_genres m;
     m_averageRating := float32_of <$> m_averageRating m;
     m_numVotes := m_numVotes m;
     m_directors := m_directors m; m_writers := m_writers m |}.

(** ** The world of the script *)

(** What datasets.imdbws.com serves. *)
Record datasets := Datasets {
  title_basics : list basics_row;
  title_ratings : list ratings_row;
  title_crew : list crew_row;
  name_basics : list person }.

Record world := World {
  remote : datasets;
  csv_file : option (list movie);  (* the file at CSV_PATH, when it exists *)
  verbose : bool;                  (* _VERBOSE *)
  console : list message;          (* what has been printed *)
  downloads : list string;         (* the archives requested so far *)
  chunks_read : nat }.             (* chunks pulled from name.basics readers *)

Definition CSV_PATH : string := "imdb_movies.csv".

(** State and exceptions. *)
Definition M (A : Type) : Type := world → result A * world.

Global Instance M_ret : MRet M := λ A a w, (Ok a, w).

Global Instance M_bind : MBind M := λ A B f m w,
  match m w with
  | (Ok a, w') => f a w'
  | (Raise e, w') => (Raise e, w')
  end.

Definition lift {A} (r : result A) : M A := λ w, (r, w).

Definition get {A} (f : world → A) : M A := λ w, (Ok (f w), w).

Definition with_verbose (v : bool) (w : world) : world :=
  {| remote := remote w; csv_file := csv_file w; verbose := v;
     console := console w; downloads := downloads w;
     chunks_read := chunks_read w |}.

Definition with_console (out : list message) (w : world) : world :=
  {| remote := remote w; csv_file := csv_file w; verbose := verbose w;
     console := out; downloads := downloads w;
     chunks_read := chunks_read w |}.

Definition with_downloads (names : list string) (w : world) : world :=
  {| remote := remote w; csv_file := csv_file w; verbose := verbose w;
     console := console w; downloads := names;
     chunks_read := chunks_read w |}.

Definition with_chunks_read (n : nat) (w : world) : world :=
  {| remote := remote w; csv_file := csv_file w; verbose := verbose w;
     console := console w; downloads := downloads w; chunks_read := n |}.

Definition with_csv_file (file : option (list movie)) (w : world) : world :=
  {| remote := remote w; csv_file := file; verbose := verbose w;
     console := console w; downloads := downloads w;
     chunks_read := chunks_read w |}.

Definition set_verbosity (enabled : bool) : M unit := λ w,
  (Ok (), with_verbose enabled w).

Definition print (m : message) : M unit := λ w,
  (Ok (), with_console (console w ++ [m]) w).

(** [log(message, detail=...)] *)
Definition log (detail : bool) (m : message) : M unit :=
  v ← get verbose;
  if detail && negb v then mret () else print m.

Fixpoint log_all (entries : list log_entry) : M unit :=
  match entries with
  | [] => mret ()
  | (detail, m) :: entries' => log detail m;; log_all entries'
  end.

Definition http_get (name : string) : M unit := λ w,
  (Ok (), with_downloads (downloads w ++ [name]) w).

Definition download_imdb_archive (name : string) : M unit :=
  log false (Downloading name);;
  http_get name;;
  log true (FinishedDownloading name).

Definition read_imdb_tsv {R} (name : string) (table : datasets → list R)
  : M (list R) :=
  download_imdb_archive name;;
  log true (Parsing name);;
  df ← get (λ w, table (remote w));
  log true (Loaded (length df) name);;
  mret df.

Definition pulled (n : nat) : M unit := λ w,
  (Ok (), with_chunks_read (chunks_read w + n) w).

Definition load_relevant_people `{PyHash} (relevant_ids : gset string)
  : M (list person) :=
  if decide (relevant_ids = ∅) then
    log true NoRelevantIds;;
    mret []
  else
    download_imdb_archive "name.basics";;
    log true ScanningChunks;;
    reader ← get (λ w, read_chunks chunksize (name_basics (remote w)));
    let '(relevant_people, st) := scan_people relevant_ids reader in
    pulled (length (pulls st));;
    log_all (scan_log st);;
    mret relevant_people.

Definition to_csv (table : list movie) : M unit := λ w,
  (Ok (), with_csv_file (Some table) w).

Definition build_imdb_csv `{PyHash} (force verbose_arg : bool) : M string :=
  v ← get verbose;
  (if decide (v ≠ verbose_arg) then set_verbosity verbose_arg else mret ());;
  cached ← get csv_file;
  if notna cached && negb force then
    log false UsingCached;;
    mret CSV_PATH
  else
    log false Building;;
    basics ← read_imdb_tsv "title.basics" title_basics;
    ratings ← read_imdb_tsv "title.ratings" title_ratings;
    crew ← read_imdb_tsv "title.crew" title_crew;
    log true MergingTables;;
    df ← lift (merge_tables basics ratings crew);
    log true ApplyingFilters;;
    let df := filter_titles df in
    log true CollectingIds;;
    relevant_ids ← lift (collect_ids_typed crew df);
    log true (UniqueIds (size relevant_ids));;
    relevant_people ← load_relevant_people relevant_ids;
    relevant_people ←
      match relevant_people with
      | [] => log true NoRelevantPeople;; mret relevant_people
      | _ => log true Disambiguating;; mret (disambiguate_people relevant_people)
      end;
    log true BuildingLookup;;
    let name_map := name_map relevant_people in
    d ← lift (ids_to_names (column directors df) name_map);
    let df := set_directors df d in
    w ← lift (ids_to_names (column writers df) name_map);
    let df := set_writers df w in
    let table := astype_dtypes <$> (drop_columns <$> df.*2) in
    log false WritingCsv;;
    to_csv table;;
    mret CSV_PATH.

Global Arguments build_imdb_csv : simpl never.
Global Arguments load_relevant_people : simpl never.

(** How often the pipeline has run: it starts by fetching title.basics. *)
Definition pipeline_runs (w : world) : nat :=
  length (filter (λ name, name = "title.basics") (downloads w)).

(** ** Sample data *)

Module Sample.

(** A hash seed under which sets are enumerated in their canonical order. *)
Definition seed : PyHash :=
  {| set_iter := elements; set_iter_perm := λ X, reflexivity _ |}.

(** Another seed: the opposite order. *)
Definition seed' : PyHash :=
  {| set_iter := λ X, reverse (elements X);
     set_iter_perm := λ X, reverse_Permutation (elements X) |}.

(** The records (1, Ann), (2, Bob), (3, Ann). *)
Definition ann1 := Person (Some "1") (Some "Ann").
Definition bob2 := Person (Some "2") (Some "Bob").
Definition ann3 := Person (Some "3") (Some "Ann").

(** A name.basics file read in three chunks: A and C are there, B is not
    (its only row has no name). *)
Definition reader : list chunk :=
  [ [Person (Some "A") (Some "Ann"); Person (Some "X") (Some "Xavier")];
    [Person (Some "B") None; Person (Some "C") (Some "Cy");
     Person None (Some "Nobody")];
    [Person (Some "Y") (Some "Yves"); Person (Some "A") (Some "Ann again")] ].

(** One movie whose director list has a blank after the comma. *)
Definition padded : datasets :=
  {| title_basics :=
       [BasicsRow (Some "tt1") (Some "movie") (Some "One") (Some "One")
          (Some 0%Z) (Some 1999%Z) None (Some 100%Z) (Some "Drama")];
     title_ratings := [RatingsRow (Some "tt1") (Some 7.5%float) (Some 2000%Z)];
     title_crew := [CrewRow (Some "tt1") (Some "n1, n2") (Some "n2")];
     name_basics := [Person (Some "n1") (Some "Ann");
                     Person (Some "n2") (Some "Bob")] |}.

(** Two titles, of which [tt2] has too few votes; both directors of [tt1]
    are called Ann. *)
Definition two_titles : datasets :=
  {| title_basics :=
       [BasicsRow (Some "tt1") (Some "movie") (Some "One") (Some "One")
          (Some 0%Z) (Some 1999%Z) None (Some 100%Z) (Some "Drama");
        BasicsRow (Some "tt2") (Some "movie") (Some "Two") (Some "Two")
          (Some 0%Z) (Some 2001%Z) None (Some 90%Z) (Some "Comedy")];
     title_ratings := [RatingsRow (Some "tt1") (Some 7.5%float) (Some 2000%Z);
                       RatingsRow (Some "tt2") (Some 6%float) (Some 999%Z)];
     title_crew := [CrewRow (Some "tt1") (Some "p1,p2") None;
                    CrewRow (Some "tt2") (Some "p3") (Some "p3")];
     name_basics := [Person (Some "p1") (Some "Ann");
                     Person (Some "p2") (Some "Ann");
                     Person (Some "p3") (Some "Cy")] |}.

(** A fresh checkout: nothing cached, nothing printed or fetched yet. *)
Definition fresh (d : datasets) : world :=
  {| remote := d; csv_file := None; verbose := false; console := [];
     downloads := []; chunks_read := 0 |}.

(** A chunk in which the identifier n1 is on two rows. *)
Definition repeating : list chunk :=
  [ [Person (Some "n1") (Some "Ann"); Person (Some "n1") (Some "Bob")] ].

End Sample.


(** ** The steps as the specification words them *)

(** The cell that [apply] leaves at position [i] of the column [names]. *)
Definition disambiguated (dups : list string) (names : list (option string))
    (i : nat) (c : option string) : option string :=
  match c with
  | None => None
  | Some n =>
      if decide (n ∉ dups) then Some n
      else Some (n +:+ " (" +:+ pretty (count_name n (take (S i) names)) +:+ ")")
  end.

(** The names that the lookup resolves for the tokens of a cell, in token
    order. *)
Definition cell_names (mapping : gmap string string) (c : option string)
  : list string :=
  match c with
  | None => []
  | Some s => omap (λ k, mapping !! k) (Str.split Str.comma s)
  end.

(** ID-list rewrite of one cell: a missing cell stays missing; otherwise the
    resolved names are joined with commas, and the cell is missing when no
    token resolves. *)
Definition rewrite_cell (mapping : gmap string string) (c : option string)
  : option string :=
  match cell_names mapping c with
  | [] => None
  | names => Some (Str.join "," names)
  end.

(** The identifiers that occur in the chunks on a row with an identifier
    and a name. *)
Definition valid_ids (reader : list chunk) : gset string :=
  nconst_set (mjoin (dropna_people <$> reader)).

(** What [log] prints of pending entries under verbosity [v]. *)
Definition printed (v : bool) (entries : list log_entry) : list message :=
  (filter (λ e, e.1 && negb v = false) entries).*2.

(** The frame of titles that a run of the pipeline works on. *)
Definition filtered_titles (d : datasets) : frame title :=
  filter_titles (merge_titles (title_basics d) (title_ratings d) (title_crew d)).

(** The people that [load_relevant_people] returns in a run. *)
Definition relevant_people_of `{PyHash} (d : datasets) : list person :=
  let relevant_ids := collect_ids (filtered_titles d) in
  if decide (relevant_ids = ∅) then []
  else (scan_people relevant_ids (read_chunks chunksize (name_basics d))).1.

(** The lookup that a run builds. *)
Definition name_map_of `{PyHash} (d : datasets) : lookup_series :=
  name_map match relevant_people_of d with
           | [] => []
           | people => disambiguate_people people
           end.

(** The table that a run of the pipeline writes, or the exception that
    ends it, as a function of the datasets served. *)
Definition build_table `{PyHash} (d : datasets) : result (list movie) :=
  match merge_tables (title_basics d) (title_ratings d) (title_crew d) with
  | Raise e => Raise e
  | Ok df =>
      let df := filter_titles df in
      match collect_ids_typed (title_crew d) df with
      | Raise e => Raise e
      | Ok _ =>
          match ids_to_names (column directors df) (name_map_of d) with
          | Raise e => Raise e
          | Ok ds =>
              let df := set_directors df ds in
              match ids_to_names (column writers df) (name_map_of d) with
              | Raise e => Raise e
              | Ok ws =>
                  Ok (astype_dtypes <$> (drop_columns <$> (set_writers df ws).*2))
              end
          end
      end
  end.

(** The written row of a filtered title under the lookup [m]. *)
Definition rewritten (m : gmap string string) (t : title) : movie :=
  astype_dtypes
    (drop_columns
       (with_writers (with_directors t (rewrite_cell m (directors t)))
          (rewrite_cell m (writers t)))).

(** The rows of the first chunk that has the identifier [i] on a row with
    identifier and name. *)
Fixpoint first_rows (i : string) (reader : list chunk) : list person :=
  match reader with
  | [] => []
  | c :: reader' =>
      match filter (λ p, nconst p = Some i) (dropna_people c) with
      | [] => first_rows i reader'
      | rows => rows
      end
  end.

(** The world after [w] once the file at CSV_PATH is [file], the pending
    entries have gone through [log], the archives [names] have been
    requested and [n] more chunks have been read. *)
Definition effects (w : world) (file : option (list movie))
    (entries : list log_entry) (names : list string) (n : nat) : world :=
  {| remote := remote w; csv_file := file; verbose := verbose w;
     console := console w ++ printed (verbose w) entries;
     downloads := downloads w ++ names;
     chunks_read := chunks_read w + n |}.

(** ** The rest of the script *)

(** [format_count]: the value with a comma between groups of three digits,
    [f"{value:,}"].  The digits are grouped from the least significant
    one. *)
Fixpoint group_thousands (digits : list ascii) : list ascii :=
  match digits with
  | a :: b :: c :: rest =>
      a :: b :: c :: match rest with
                     | [] => []
                     | _ :: _ => ","%char :: group_thousands rest
                     end
  | _ => digits
  end.

Definition format_count (value : nat) : string :=
  string_of_list_ascii
    (reverse (group_thousands (reverse (list_ascii_of_string (pretty value))))).

(** What [read_imdb_tsv] sends to [log] for an archive of [rows] rows. *)
Definition read_entries (name : string) (rows : nat) : list log_entry :=
  [(false, Downloading name); (true, FinishedDownloading name);
   (true, Parsing name); (true, Loaded rows name)].

(** What [load_relevant_people] sends to [log]. *)
Definition load_entries `{PyHash} (relevant_ids : gset string)
    (reader : list chunk) : list log_entry :=
  if decide (relevant_ids = ∅) then [(true, NoRelevantIds)]
  else [(false, Downloading "name.basics");
        (true, FinishedDownloading "name.basics");
        (true, ScanningChunks)]
       ++ scan_log (scan_people relevant_ids reader).2.

(** What a run of the pipeline sends to [log], the archives it requests
    and the chunks it reads. *)
(** How far a run of the pipeline gets before the lookup is used: to the
    merges, to the collection of identifiers, or beyond. *)
Definition typing (d : datasets) : result unit :=
  match merge_tables (title_basics d) (title_ratings d) (title_crew d) with
  | Raise e => Raise e
  | Ok df =>
      match collect_ids_typed (title_crew d) (filter_titles df) with
      | Raise e => Raise e
      | Ok _ => Ok ()
      end
  end.

Definition pipeline_entries `{PyHash} (d : datasets) : list log_entry :=
  let relevant_ids := collect_ids (filtered_titles d) in
  [(false, Building)]
  ++ read_entries "title.basics" (length (title_basics d))
  ++ read_entries "title.ratings" (length (title_ratings d))
  ++ read_entries "title.crew" (length (title_crew d))
  ++ [(true, MergingTables)]
  ++ match merge_tables (title_basics d) (title_ratings d) (title_crew d) with
     | Raise _ => []
     | Ok _ =>
         [(true, ApplyingFilters); (true, CollectingIds)]
         ++ match collect_ids_typed (title_crew d) (filtered_titles d) with
            | Raise _ => []
            | Ok _ =>
                [(true, UniqueIds (size relevant_ids))]
                ++ load_entries relevant_ids
                     (read_chunks chunksize (name_basics d))
                ++ [(true, match relevant_people_of d with
                           | [] => NoRelevantPeople
                           | _ => Disambiguating
                           end);
                    (true, BuildingLookup)]
                ++ match build_table d with
                   | Ok _ => [(false, WritingCsv)]
                   | Raise _ => []
                   end
            end
     end.

Definition pipeline_downloads (d : datasets) : list string :=
  "title.basics" :: "title.ratings" :: "title.crew"
  :: match typing d with
     | Raise _ => []
     | Ok _ => if decide (collect_ids (filtered_titles d) = ∅) then []
               else ["name.basics"]
     end.

Definition pipeline_chunks `{PyHash} (d : datasets) : nat :=
  let relevant_ids := collect_ids (filtered_titles d) in
  match typing d with
  | Raise _ => 0
  | Ok _ =>
      if decide (relevant_ids = ∅) then 0
      else length (pulls (scan_people relevant_ids
                            (read_chunks chunksize (name_basics d))).2)
  end.

(** [get_imdb_data]: [read_csv] stands for [pd.read_csv] on the file at
    CSV_PATH, whatever it makes of the file. *)
Definition get_imdb_data `{PyHash} {T : Type}
    (read_csv : option (list movie) → result T) (force verbose_arg : bool)
  : M T :=
  set_verbosity verbose_arg;;
  csv_path ← build_imdb_csv force verbose_arg;
  file ← get csv_file;
  lift (read_csv file).

(** A reader that keeps the titles. *)
Definition sample_read_csv (file : option (list movie))
  : result (list (option string)) :=
  match file with
  | Some table => Ok (m_primaryTitle <$> table)
  | None => Raise InvalidIndexError
  end.

(** A file in which the identifier n1 is on two rows. *)
Definition sample_repeated : datasets :=
  {| title_basics := title_basics Sample.padded;
     title_ratings := title_ratings Sample.padded;
     title_crew := [CrewRow (Some "tt1") (Some "n1") (Some "n1")];
     name_basics := mjoin Sample.repeating |}.

(** A crew table whose filtered titles name nobody: the crew row of tt1 has
    no director and blank writers; the row of tt9 belongs to no title. *)
Definition sample_no_crew : datasets :=
  {| title_basics := title_basics Sample.two_titles;
     title_ratings := title_ratings Sample.two_titles;
     title_crew := [CrewRow (Some "tt1") None (Some " , ");
                    CrewRow (Some "tt9") (Some "p9") None];
     name_basics := name_basics Sample.two_titles |}.

(** A crew table without any writer: pandas reads the column as floats. *)
Definition sample_no_writers : datasets :=
  {| title_basics := title_basics Sample.padded;
     title_ratings := title_ratings Sample.padded;
     title_crew := [CrewRow (Some "tt1") (Some "n1") None];
     name_basics := name_basics Sample.padded |}.

(** Ratings without any title identifier: the key column is read as
    floats. *)
Definition sample_no_keys : datasets :=
  {| title_basics := title_basics Sample.padded;
     title_ratings := [RatingsRow None (Some 7.5%float) (Some 2000%Z)];
     title_crew := title_crew Sample.padded;
     name_basics := name_basics Sample.padded |}.

(** A rating that is no single precision float. *)
Definition sample_rating : datasets :=
  {| title_basics := title_basics Sample.padded;
     title_ratings :=
       [RatingsRow (Some "tt1") (Some 0x1.c7e6b74dce58dp+2%float)
          (Some 2000%Z)];
     title_crew := title_crew Sample.padded;
     name_basics := name_basics Sample.padded |}.

(** * Properties *)

(** ** Index labels *)

Lemma labels_range_index {R} (rows : list R) :
  labels (range_index rows) = seq 0 (length rows).
Proof. apply fst_zip. by rewrite length_seq. Qed.

Lemma rows_range_index {R} (rows : list R) : (range_index rows).*2 = rows.
Proof. apply snd_zip. by rewrite length_seq. Qed.

Lemma NoDup_range_index {R} (rows : list R) : NoDup (labels (range_index rows)).
Proof. rewrite labels_range_index. apply NoDup_seq. Qed.

Lemma labels_filter_sub {R} (P : nat * R → Prop) `{∀ x, Decision (P x)}
    (df : frame R) l :
  l ∈ labels (filter P df) → l ∈ labels df.
Proof.
  unfold labels. rewrite !list_elem_of_fmap.
  intros (x & -> & Hx). apply list_elem_of_filter in Hx as [_ Hx]. eauto.
Qed.

Lemma NoDup_labels_filter {R} (P : nat * R → Prop) `{∀ x, Decision (P x)}
    (df : frame R) :
  NoDup (labels df) → NoDup (labels (filter P df)).
Proof.
  unfold labels. induction df as [|x df IH]; [done|].
  rewrite fmap_cons, NoDup_cons. intros [Hx Hdf]. rewrite filter_cons.
  destruct (decide (P x)); [|by apply IH].
  rewrite fmap_cons. apply NoDup_cons. split; [|by apply IH].
  intros Hin. apply Hx. by eapply (labels_filter_sub P).
Qed.

Lemma label_absent_filter {R} (df : frame R) l :
  l ∉ labels df → filter (λ lr, lr.1 = l) df = [].
Proof.
  unfold labels. induction df as [|x df IH]; [done|].
  rewrite fmap_cons, not_elem_of_cons. intros [Hne Hnin].
  rewrite filter_cons. destruct (decide (x.1 = l)); [congruence|by apply IH].
Qed.

Lemma label_once_filter {R} (P : nat * R → Prop) `{∀ x, Decision (P x)}
    (df : frame R) l r :
  NoDup (labels df) → (l, r) ∈ df → P (l, r) →
  length (filter (λ lr, lr.1 = l) (filter P df)) = 1.
Proof.
  unfold labels. induction df as [|x df IH].
  - intros _ Hin. by apply elem_of_nil in Hin.
  - rewrite fmap_cons, NoDup_cons. intros [Hx Hdf] Hin HP.
    apply elem_of_cons in Hin as [<-|Hin].
    + rewrite filter_cons. destruct (decide (P (l, r))); [|done].
      rewrite filter_cons. simpl. destruct (decide (l = l)); [|done].
      simpl. f_equal. rewrite label_absent_filter; [done|].
      intros Hl. apply Hx. by eapply (labels_filter_sub P).
    + assert (x.1 ≠ l) as Hne.
      { intros Heq. apply Hx. rewrite Heq.
        apply list_elem_of_fmap. by exists (l, r). }
      rewrite filter_cons. destruct (decide (P x)); [|by apply IH].
      rewrite filter_cons. destruct (decide (x.1 = l)); [done|by apply IH].
Qed.

(** ** The title filter *)

Lemma title_mask_spec (t : title) :
  title_mask t = true ↔
    isAdult t = Some 0%Z ∧ titleType t = Some "movie"
    ∧ is_Some (runtimeMinutes t)
    ∧ (∃ y, startYear t = Some y ∧ (1930 ≤ y)%Z)
    ∧ (∃ n, numVotes t = Some n ∧ (1000 ≤ n)%Z).
Proof.
  unfold title_mask, eq_cell, ge_cell, notna.
  rewrite !andb_true_iff.
  destruct (isAdult t) as [a|], (titleType t) as [ty|],
    (runtimeMinutes t) as [rt|], (startYear t) as [y|], (numVotes t) as [n|];
    rewrite ?bool_decide_eq_true, ?Z.leb_le;
    split; intros H; destruct_and?;
    repeat match goal with
           | H : ∃ _, _ |- _ => destruct H as (? & ? & ?)
           | H : is_Some None |- _ => by destruct H
           end;
    simplify_eq; try done;
    repeat split; eauto.
Qed.

(** C1. A row of the merged frame is kept by the title filter if and only
    if its adult flag is 0, its type is "movie", its runtime is present, its
    start year is at least 1930 and its vote count is at least 1000; and
    every merged row that meets all of these is in the filtered frame exactly
    once. *)
Theorem filter_titles_keeps_exactly
    (basics : list basics_row) (ratings : list ratings_row)
    (crew : list crew_row) :
  let joined := merge_titles basics ratings crew in
  let kept := filter_titles joined in
  (∀ l t, (l, t) ∈ kept ↔
     (l, t) ∈ joined
     ∧ isAdult t = Some 0%Z ∧ titleType t = Some "movie"
     ∧ is_Some (runtimeMinutes t)
     ∧ (∃ y, startYear t = Some y ∧ (1930 ≤ y)%Z)
     ∧ (∃ n, numVotes t = Some n ∧ (1000 ≤ n)%Z))
  ∧ (∀ l t, (l, t) ∈ joined →
       isAdult t = Some 0%Z → titleType t = Some "movie" →
       is_Some (runtimeMinutes t) →
       (∃ y, startYear t = Some y ∧ (1930 ≤ y)%Z) →
       (∃ n, numVotes t = Some n ∧ (1000 ≤ n)%Z) →
       length (filter (λ lr, lr.1 = l) kept) = 1)
  ∧ NoDup (labels joined).
Proof.
  intros joined kept. split; [|split].
  - intros l t. unfold kept, filter_titles.
    rewrite list_elem_of_filter. simpl. rewrite title_mask_spec. tauto.
  - intros l t Hin Hadult Htype Hruntime Hyear Hvotes. unfold kept, filter_titles.
    apply (label_once_filter _ joined l t); [|done|].
    + apply NoDup_range_index.
    + simpl. by apply title_mask_spec.
  - apply NoDup_range_index.
Qed.

(** ** The merges *)

Lemma elem_of_merge_inner basics ratings b r :
  (b, r) ∈ merge_inner basics ratings ↔
    b ∈ basics ∧ r ∈ ratings ∧ r_tconst r = b_tconst b.
Proof.
  unfold merge_inner. rewrite list_elem_of_bind. split.
  - intros (b' & Hin & Hb). apply list_elem_of_bind in Hin as (r' & Hin & Hr).
    apply list_elem_of_singleton in Hin. simplify_eq.
    apply list_elem_of_filter in Hr as [? ?]. done.
  - intros (Hb & Hr & Heq). exists b. split; [|done].
    apply list_elem_of_bind. exists r. split; [by apply list_elem_of_singleton|].
    by apply list_elem_of_filter.
Qed.

Lemma elem_of_merge_left df crew t :
  t ∈ merge_left df crew ↔
    ∃ br, br ∈ df ∧
      ((∃ c, c ∈ crew ∧ c_tconst c = b_tconst br.1
             ∧ t = join_row br (c_directors c) (c_writers c))
       ∨ ((∀ c, c ∈ crew → c_tconst c ≠ b_tconst br.1)
          ∧ t = join_row br None None)).
Proof.
  unfold merge_left. rewrite list_elem_of_bind.
  assert (∀ (br : basics_row * ratings_row) c,
            c ∈ filter (λ c, c_tconst c = b_tconst br.1) crew ↔
            c ∈ crew ∧ c_tconst c = b_tconst br.1) as Hfilter.
  { intros br c. rewrite list_elem_of_filter. tauto. }
  split.
  - intros (br & Ht & Hbr). exists br. split; [done|].
    destruct (filter _ crew) as [|c0 cs] eqn:Hf.
    + apply list_elem_of_singleton in Ht. right. split; [|done].
      intros c Hc Heq. assert (c ∈ @nil crew_row) as Hin
        by (rewrite <- Hf; by apply Hfilter).
      by apply elem_of_nil in Hin.
    + rewrite <- Hf in Ht. apply list_elem_of_fmap in Ht as (c & -> & Hc).
      apply Hfilter in Hc as [? ?]. left. by exists c.
  - intros (br & Hbr & Ht). exists br. split; [|done].
    destruct (filter _ crew) as [|c0 cs] eqn:Hf.
    + apply list_elem_of_singleton.
      destruct Ht as [(c & Hc & Heq & _)|[_ ->]]; [|done].
      assert (c ∈ @nil crew_row) as Hin by (rewrite <- Hf; by apply Hfilter).
      by apply elem_of_nil in Hin.
    + rewrite <- Hf. apply list_elem_of_fmap.
      destruct Ht as [(c & Hc & Heq & ->)|[Hno _]].
      * exists c. split; [done|]. by apply Hfilter.
      * assert (c0 ∈ filter (λ c, c_tconst c = b_tconst br.1) crew) as Hin
          by (rewrite Hf; left).
        apply Hfilter in Hin as [Hin Heq]. by destruct (Hno c0).
Qed.

(** C2. The merge is an inner join of title.basics with title.ratings on
    tconst followed by a left join with title.crew.  The merged rows are
    exactly these: for every basics row and ratings row of the same title,
    one row per crew row of that title, with the columns of the basics row,
    the rating and the votes of the ratings row and the directors and
    writers of the crew row; and, when the title has no crew row, one row
    with the same basics and ratings columns and missing directors and
    writers.  So a title without ratings row is excluded, a title without
    crew row is kept, and the ratings columns are carried unmodified. *)
Theorem merge_titles_inner_then_left
    (basics : list basics_row) (ratings : list ratings_row)
    (crew : list crew_row) :
  let joined := (merge_titles basics ratings crew).*2 in
  let row (b : basics_row) (r : ratings_row) (d w : option string) : title :=
    {| tconst := b_tconst b; titleType := b_titleType b;
       primaryTitle := b_primaryTitle b; originalTitle := b_originalTitle b;
       isAdult := b_isAdult b; startYear := b_startYear b;
       endYear := b_endYear b; runtimeMinutes := b_runtimeMinutes b;
       genres := b_genres b;
       averageRating := r_averageRating r; numVotes := r_numVotes r;
       directors := d; writers := w |} in
  (∀ t, t ∈ joined ↔
     ∃ b r, b ∈ basics ∧ r ∈ ratings ∧ r_tconst r = b_tconst b ∧
       ((∃ c, c ∈ crew ∧ c_tconst c = b_tconst b
              ∧ t = row b r (c_directors c) (c_writers c))
        ∨ ((∀ c, c ∈ crew → c_tconst c ≠ b_tconst b)
           ∧ t = row b r None None)))
  ∧ (∀ b, b ∈ basics → (∀ r, r ∈ ratings → r_tconst r ≠ b_tconst b) →
       ∀ t, t ∈ joined → tconst t ≠ b_tconst b)
  ∧ (∀ t, t ∈ joined →
       ∃ r, r ∈ ratings ∧ r_tconst r = tconst t
            ∧ averageRating t = r_averageRating r
            ∧ numVotes t = r_numVotes r)
  ∧ (∀ b r, b ∈ basics → r ∈ ratings → r_tconst r = b_tconst b →
       ∃ t, t ∈ joined ∧ tconst t = b_tconst b
            ∧ averageRating t = r_averageRating r
            ∧ numVotes t = r_numVotes r)
  ∧ (∀ b r c, b ∈ basics → r ∈ ratings → r_tconst r = b_tconst b →
       c ∈ crew → c_tconst c = b_tconst b →
       row b r (c_directors c) (c_writers c) ∈ joined)
  ∧ (∀ b r, b ∈ basics → r ∈ ratings → r_tconst r = b_tconst b →
       (∀ c, c ∈ crew → c_tconst c ≠ b_tconst b) →
       row b r None None ∈ joined)
  ∧ (∀ t, t ∈ joined → (∀ c, c ∈ crew → c_tconst c ≠ tconst t) →
       directors t = None ∧ writers t = None).
Proof.
  intros joined row.
  assert (∀ b r d w, join_row (b, r) d w = row b r d w) as Hrow by done.
  assert (∀ t, t ∈ joined ↔
     ∃ b r, b ∈ basics ∧ r ∈ ratings ∧ r_tconst r = b_tconst b ∧
       ((∃ c, c ∈ crew ∧ c_tconst c = b_tconst b
              ∧ t = row b r (c_directors c) (c_writers c))
        ∨ ((∀ c, c ∈ crew → c_tconst c ≠ b_tconst b)
           ∧ t = row b r None None))) as Hchar.
  { intros t. unfold joined, merge_titles. rewrite rows_range_index.
    rewrite elem_of_merge_left. split.
    - intros ([b r] & Hbr & Ht).
      apply elem_of_merge_inner in Hbr as (Hb & Hr & Heq).
      setoid_rewrite Hrow in Ht. by exists b, r.
    - intros (b & r & Hb & Hr & Heq & Ht). exists (b, r).
      split; [by apply elem_of_merge_inner|]. by setoid_rewrite Hrow. }
  clear Hrow.
  split; [exact Hchar|]. split; [|split; [|split; [|split; [|split]]]].
  - intros b Hb Hno t Ht Heq. apply Hchar in Ht as (b' & r & _ & Hr & Hk & Ht).
    apply (Hno r Hr). rewrite Hk, <- Heq.
    destruct Ht as [(c & _ & _ & ->)|[_ ->]]; done.
  - intros t Ht. apply Hchar in Ht as (b & r & _ & Hr & Hk & Ht).
    exists r. destruct Ht as [(c & _ & _ & ->)|[_ ->]]; done.
  - intros b r Hb Hr Hk.
    destruct (filter (λ c, c_tconst c = b_tconst b) crew) as [|c cs] eqn:Hf.
    + exists (row b r None None). split; [|done].
      apply Hchar. exists b, r. repeat (split; [done|]). right. split; [|done].
      intros c Hc Heq.
      assert (c ∈ filter (λ c, c_tconst c = b_tconst b) crew) as Hin
        by by apply list_elem_of_filter.
      rewrite Hf in Hin. by apply elem_of_nil in Hin.
    + assert (c ∈ filter (λ c, c_tconst c = b_tconst b) crew) as Hin
        by (rewrite Hf; left).
      apply list_elem_of_filter in Hin as [Heq Hin].
      exists (row b r (c_directors c) (c_writers c)). split; [|done].
      apply Hchar. exists b, r. repeat (split; [done|]). left. by exists c.
  - intros b r c Hb Hr Hk Hc Hck. apply Hchar. exists b, r.
    repeat (split; [done|]). left. by exists c.
  - intros b r Hb Hr Hk Hno. apply Hchar. exists b, r.
    repeat (split; [done|]). by right.
  - intros t Ht Hno. apply Hchar in Ht as (b & r & _ & _ & _ & Ht).
    destruct Ht as [(c & Hc & Heq & ->)|[_ ->]]; [|done].
    by destruct (Hno c Hc).
Qed.

(** ** Disambiguation *)

Lemma count_name_app n l1 l2 :
  count_name n (l1 ++ l2) = count_name n l1 + count_name n l2.
Proof. unfold count_name. by rewrite filter_app, length_app. Qed.

Lemma count_name_cons n c l :
  count_name n (c :: l) = (if decide (c = Some n) then 1 else 0) + count_name n l.
Proof.
  unfold count_name. rewrite filter_cons. by destruct (decide (c = Some n)).
Qed.

Lemma count_name_nil n : count_name n [] = 0.
Proof. reflexivity. Qed.

Lemma count_name_pos n l : 0 < count_name n l ↔ Some n ∈ l.
Proof.
  induction l as [|c l IH].
  - split; [inversion 1|]. intros H. by apply elem_of_nil in H.
  - rewrite count_name_cons, elem_of_cons.
    destruct (decide (c = Some n)) as [->|Hne].
    + split; [by left|]. intros _. simpl. lia.
    + simpl. rewrite IH. split; [by right|]. by intros [?|?].
Qed.

Lemma elem_of_value_counts names n k :
  (n, k) ∈ value_counts names ↔ Some n ∈ names ∧ k = count_name n names.
Proof.
  unfold value_counts. rewrite merge_sort_Permutation.
  rewrite list_elem_of_fmap. split.
  - intros (n' & Heq & Hin). simplify_eq. split; [|done].
    apply elem_of_remove_dups, list_elem_of_omap in Hin as (c & Hc & Hid).
    simpl in Hid. by subst.
  - intros [Hin ->]. exists n. split; [done|].
    apply elem_of_remove_dups, list_elem_of_omap. by exists (Some n).
Qed.

Lemma elem_of_duplicated_names names n :
  n ∈ duplicated_names names ↔ 1 < count_name n names.
Proof.
  unfold duplicated_names. rewrite list_elem_of_fmap. split.
  - intros ([n' k] & -> & Hin). apply list_elem_of_filter in Hin as [Hk Hin].
    apply elem_of_value_counts in Hin as [_ ->]. done.
  - intros Hk. exists (n, count_name n names). split; [done|].
    apply list_elem_of_filter. split; [done|].
    apply elem_of_value_counts. split; [|done]. apply count_name_pos. lia.
Qed.

Lemma apply_disambiguate_length dups names :
  ∀ counter, length (apply_disambiguate dups counter names) = length names.
Proof.
  induction names as [|c names IH]; intros counter; simpl; [done|].
  destruct (disambiguate dups counter c). simpl. by rewrite IH.
Qed.

Lemma apply_disambiguate_lookup dups names :
  ∀ pre counter i c,
    (∀ n, n ∈ dups → default 0 (counter !! n) = count_name n pre) →
    names !! i = Some c →
    apply_disambiguate dups counter names !! i
    = Some (disambiguated dups (pre ++ names) (length pre + i) c).
Proof.
  induction names as [|c0 names IH]; intros pre counter i c Hinv Hi; [done|].
  simpl. destruct (disambiguate dups counter c0) as [c0' counter'] eqn:Hd.
  destruct i as [|i]; simpl in *.
  - simplify_eq. f_equal. unfold disambiguate in Hd. unfold disambiguated.
    destruct c as [n|]; [|by simplify_eq].
    destruct (decide (n ∉ dups)) as [Hn|Hn]; [by simplify_eq|].
    simplify_eq. apply dec_stable in Hn. rewrite (Hinv n Hn).
    assert (take (S (length pre + 0)) (pre ++ Some n :: names)
            = pre ++ [Some n]) as ->.
    { rewrite (cons_middle (Some n) pre names), (assoc_L app).
      replace (S (length pre + 0)) with (length (pre ++ [Some n]))
        by (rewrite length_app; simpl; lia).
      apply take_app_length. }
    rewrite count_name_app, count_name_cons, decide_True by done. done.
  - rewrite (IH (pre ++ [c0]) counter' i c); [|  |done].
    + f_equal. rewrite <- (assoc_L app). simpl. rewrite length_app. simpl.
      by replace (length pre + 1 + i) with (length pre + S i) by lia.
    + intros n Hn. rewrite count_name_app, count_name_cons.
      unfold disambiguate in Hd. destruct c0 as [n0|].
      * destruct (decide (n0 ∉ dups)) as [Hn0|Hn0]; simplify_eq.
        { rewrite decide_False by congruence. rewrite (Hinv n Hn).
          rewrite count_name_nil. simpl. lia. }
        destruct (decide (n0 = n)) as [->|Hne].
        { rewrite lookup_insert_eq, decide_True by done. simpl.
          rewrite (Hinv n Hn). rewrite count_name_nil. simpl. lia. }
        rewrite lookup_insert_ne, decide_False by congruence.
        rewrite (Hinv n Hn). rewrite count_name_nil. simpl. lia.
      * simplify_eq. rewrite decide_False by done. rewrite (Hinv n Hn).
        rewrite count_name_nil. simpl. lia.
Qed.

Lemma disambiguate_people_lookup (people : list person) i p :
  people !! i = Some p →
  disambiguate_people people !! i
  = Some (set_primaryName p
            (disambiguated (duplicated_names (primaryName <$> people))
               (primaryName <$> people) i (primaryName p))).
Proof.
  intros Hi. unfold disambiguate_people. rewrite lookup_zip_with, Hi. simpl.
  rewrite (apply_disambiguate_lookup _ (primaryName <$> people) [] ∅ i
             (primaryName p)).
  - done.
  - intros n _. by rewrite lookup_empty.
  - by rewrite list_lookup_fmap, Hi.
Qed.

Lemma disambiguate_people_length (people : list person) :
  length (disambiguate_people people) = length people.
Proof.
  unfold disambiguate_people. rewrite length_zip_with.
  rewrite apply_disambiguate_length, length_fmap. lia.
Qed.

Lemma disambiguate_people_nconst (people : list person) :
  nconst <$> disambiguate_people people = nconst <$> people.
Proof.
  apply list_eq. intros i. rewrite !list_lookup_fmap.
  destruct (people !! i) as [p|] eqn:Hi.
  - by rewrite (disambiguate_people_lookup people i p Hi).
  - assert (disambiguate_people people !! i = None) as ->; [|done].
    apply lookup_ge_None. apply lookup_ge_None in Hi.
    by rewrite disambiguate_people_length.
Qed.

Lemma disambiguate_people_complete (people : list person) :
  Forall (λ p, is_Some (nconst p) ∧ is_Some (primaryName p)) people →
  Forall (λ p, is_Some (nconst p) ∧ is_Some (primaryName p))
         (disambiguate_people people).
Proof.
  intros Hall. apply Forall_lookup. intros i q Hq.
  destruct (people !! i) as [p|] eqn:Hi.
  - rewrite (disambiguate_people_lookup people i p Hi) in Hq.
    simplify_eq. rewrite Forall_lookup in Hall.
    destruct (Hall i p Hi) as [Hid [n Hn]]. split; [done|]. simpl.
    rewrite Hn. simpl. by destruct (decide _).
  - apply lookup_ge_None in Hi.
    assert (disambiguate_people people !! i = None) as Hnone.
    { apply lookup_ge_None. by rewrite disambiguate_people_length. }
    by rewrite Hnone in Hq.
Qed.

(** C3. Disambiguation keeps the records in place with their identifiers;
    a record without a name, or whose name occurs once, is unchanged; the
    k-th record (in input order) carrying a name that occurs more than once
    is renamed "name (k)", counting from 1; so [(1,Ann),(2,Bob),(3,Ann)]
    becomes [(1,"Ann (1)"),(2,Bob),(3,"Ann (2)")]. *)
Theorem disambiguate_people_numbers_duplicates (people : list person) :
  let names := primaryName <$> people in
  let out := disambiguate_people people in
  length out = length people
  ∧ nconst <$> out = nconst <$> people
  ∧ (∀ i p, people !! i = Some p → primaryName p = None → out !! i = Some p)
  ∧ (∀ i p n, people !! i = Some p → primaryName p = Some n →
       count_name n names = 1 → out !! i = Some p)
  ∧ (∀ i p n, people !! i = Some p → primaryName p = Some n →
       1 < count_name n names →
       let k := count_name n (take (S i) names) in
       1 ≤ k ∧
       out !! i = Some (Person (nconst p)
                          (Some (n +:+ " (" +:+ pretty k +:+ ")"))))
  ∧ disambiguate_people [Sample.ann1; Sample.bob2; Sample.ann3]
    = [Person (Some "1") (Some "Ann (1)");
       Person (Some "2") (Some "Bob");
       Person (Some "3") (Some "Ann (2)")].
Proof.
  intros names out.
  assert (∀ i p, people !! i = Some p →
            out !! i = Some (set_primaryName p
              (disambiguated (duplicated_names names) names i (primaryName p))))
    as Hlookup by apply disambiguate_people_lookup.
  split; [|split; [|split; [|split; [|split]]]].
  - apply disambiguate_people_length.
  - apply disambiguate_people_nconst.
  - intros i p Hi Hn. rewrite (Hlookup i p Hi), Hn. by destruct p; simplify_eq/=.
  - intros i p n Hi Hn Hone. rewrite (Hlookup i p Hi), Hn. simpl.
    rewrite decide_True.
    + by destruct p; simplify_eq/=.
    + rewrite elem_of_duplicated_names. lia.
  - intros i p n Hi Hn Hmany k. split.
    + unfold k. apply count_name_pos.
      apply list_elem_of_lookup. exists i.
      rewrite lookup_take_lt by lia. unfold names.
      by rewrite list_lookup_fmap, Hi, <- Hn.
    + rewrite (Hlookup i p Hi), Hn. simpl.
      rewrite decide_False; [done|].
      intros Hnot. apply Hnot. by apply elem_of_duplicated_names.
  - vm_compute. reflexivity.
Qed.

(** ** The ID-list rewrite *)

Lemma split_nonempty sep s : Str.split sep s ≠ [].
Proof.
  destruct s as [|c s]; simpl; [done|].
  destruct (Ascii.eqb c sep); [done|]. by destruct (Str.split sep s).
Qed.

Lemma filter_same_label {A} (l : nat) (xs : list A) :
  (filter (λ lx, lx.1 = l) ((λ x, (l, x)) <$> xs)).*2 = xs.
Proof.
  induction xs as [|x xs IH]; [done|].
  rewrite fmap_cons, filter_cons. simpl.
  rewrite decide_True by done. rewrite fmap_cons. simpl. by f_equal.
Qed.

Lemma filter_other_label {A} (l l' : nat) (xs : list A) :
  l' ≠ l → filter (λ lx, lx.1 = l) ((λ x, (l', x)) <$> xs) = [].
Proof.
  intros Hne. induction xs as [|x xs IH]; [done|].
  rewrite fmap_cons, filter_cons. simpl. by rewrite decide_False.
Qed.

Section rewrite.
Variable m : gmap string string.

Let find (c : option string) : option string := c ≫= λ k, m !! k.

(** The exploded, looked-up and cleaned rows that one cell contributes. *)
Let cell_rows (lc : nat * option string) : list (nat * string) :=
  (λ n, (lc.1, n)) <$> cell_names m lc.2.

Lemma dropna_lookup_tokens l (tokens : list string) :
  dropna (smap find ((λ x, (l, Some x)) <$> tokens))
  = (λ n, (l, n)) <$> omap (λ k, m !! k) tokens.
Proof.
  unfold dropna, smap. induction tokens as [|t tokens IH]; [done|].
  cbn in *. rewrite IH. by destruct (m !! t).
Qed.

Lemma exploded_rows (series : frame (option string)) :
  dropna (smap find (explode (smap (Str.split Str.comma) (dropna series))))
  = series ≫= cell_rows.
Proof.
  induction series as [|[l c] series IH]; [done|].
  rewrite bind_cons, <- IH. unfold cell_rows at 1. simpl.
  destruct c as [s|]; simpl; [|done].
  destruct (Str.split Str.comma s) as [|t ts] eqn:Hs.
  { by destruct (split_nonempty Str.comma s). }
  unfold smap at 1. rewrite fmap_app. unfold dropna at 1. rewrite omap_app.
  f_equal. apply (dropna_lookup_tokens l (t :: ts)).
Qed.

Lemma labels_cell_rows (series : frame (option string)) l :
  l ∈ labels (series ≫= cell_rows) → l ∈ labels series.
Proof.
  unfold labels. rewrite !list_elem_of_fmap.
  intros ([l' n] & -> & Hin).
  apply list_elem_of_bind in Hin as (lc & Hin & Hlc).
  unfold cell_rows in Hin. apply list_elem_of_fmap in Hin as (n' & Heq & _).
  simplify_eq. by exists lc.
Qed.

Lemma rows_of_label (series : frame (option string)) l c :
  NoDup (labels series) → (l, c) ∈ series →
  (filter (λ lx, lx.1 = l) (series ≫= cell_rows)).*2 = cell_names m c.
Proof.
  unfold labels. induction series as [|x series IH].
  - intros _ Hin. by apply elem_of_nil in Hin.
  - rewrite fmap_cons, NoDup_cons. intros [Hx Hnd] Hin.
    rewrite bind_cons, filter_app, fmap_app.
    apply elem_of_cons in Hin as [<-|Hin].
    + rewrite (label_absent_filter (series ≫= cell_rows) l).
      * rewrite app_nil_r. unfold cell_rows. simpl.
        apply filter_same_label.
      * intros Hl. apply Hx. by apply labels_cell_rows.
    + assert (x.1 ≠ l) as Hne.
      { intros Heq. apply Hx. rewrite Heq.
        apply list_elem_of_fmap. by exists (l, c). }
      rewrite (IH Hnd Hin).
      assert (filter (λ lx, lx.1 = l) (cell_rows x) = []) as ->; [|done].
      unfold cell_rows. by apply filter_other_label.
Qed.

End rewrite.

Lemma lookup_keyed_fmap {V} (f : nat → V) (keys : list nat) l :
  (list_to_map ((λ k, (k, f k)) <$> keys) : gmap nat V) !! l
  = if decide (l ∈ keys) then Some (f l) else None.
Proof.
  induction keys as [|k keys IH].
  - destruct (decide (l ∈ [])) as [Hin|_]; [by apply elem_of_nil in Hin|].
    apply lookup_empty.
  - rewrite fmap_cons, list_to_map_cons.
    destruct (decide (k = l)) as [->|Hne].
    + rewrite lookup_insert_eq. by rewrite decide_True by left.
    + rewrite lookup_insert_ne, IH by done.
      destruct (decide (l ∈ keys)) as [Hin|Hin].
      * by rewrite decide_True by by right.
      * rewrite decide_False; [done|]. by intros [?|?]%elem_of_cons.
Qed.

Lemma lookup_groupby_join (rows : frame string) l :
  (list_to_map (groupby_join rows) : gmap nat string) !! l
  = match (filter (λ lx, lx.1 = l) rows).*2 with
    | [] => None
    | names => Some (Str.join "," names)
    end.
Proof.
  unfold groupby_join. rewrite lookup_keyed_fmap.
  destruct (decide (l ∈ merge_sort Nat.le (remove_dups (labels rows))))
    as [Hin|Hin]; rewrite merge_sort_Permutation, elem_of_remove_dups in Hin.
  - unfold labels in Hin. apply list_elem_of_fmap in Hin as (lx & -> & Hin).
    assert (lx ∈ filter (λ lx', lx'.1 = lx.1) rows) as Hf
      by by apply list_elem_of_filter.
    destruct (filter (λ lx', lx'.1 = lx.1) rows); [|done].
    by apply elem_of_nil in Hf.
  - by rewrite label_absent_filter.
Qed.

Lemma series_map_unique (s : frame (option string)) (mapping : lookup_series) :
  NoDup mapping.*1 →
  series_map s mapping
  = Ok (smap (λ c, c ≫= λ k, (list_to_map mapping : gmap string string) !! k) s).
Proof. intros Hnd. unfold series_map. by rewrite decide_True. Qed.

Lemma series_map_repeated (s : frame (option string)) (mapping : lookup_series) :
  ¬ NoDup mapping.*1 → series_map s mapping = Raise InvalidIndexError.
Proof. intros Hnd. unfold series_map. by rewrite decide_False. Qed.

Lemma ids_to_names_unique (series : frame (option string))
    (mapping : lookup_series) :
  NoDup (labels series) → NoDup mapping.*1 →
  ids_to_names series mapping
  = Ok (smap (rewrite_cell (list_to_map mapping)) series).
Proof.
  intros Hl Hm. unfold ids_to_names. rewrite series_map_unique by done.
  f_equal. rewrite exploded_rows. unfold loc_assign, smap.
  rewrite <- list_fmap_compose. apply Forall_fmap_ext, Forall_forall.
  intros [l c] Hin. simpl. f_equal.
  rewrite lookup_groupby_join, (rows_of_label _ series l c Hl Hin).
  unfold rewrite_cell. by destruct (cell_names _ c).
Qed.

Lemma omap_cons {A B} (f : A → option B) (x : A) (l : list A) :
  omap f (x :: l)
  = match f x with Some y => y :: omap f l | None => omap f l end.
Proof. done. Qed.

Lemma omap_all_None {A B} (f : A → option B) (l : list A) :
  (∀ x, x ∈ l → f x = None) → omap f l = [].
Proof.
  induction l as [|x l IH]; intros Hall; [done|]. cbn.
  rewrite (Hall x) by left. apply IH. intros y Hy. apply Hall. by right.
Qed.

(** C4. With a lookup whose index is a mapping (no identifier twice), the
    ID-list rewrite of a column turns every cell, under its own label, into:
    missing when the cell is missing; otherwise the comma-join, in token
    order, of the names of exactly the tokens that have an entry; and missing,
    not the empty string, when no token has an entry. *)
Theorem ids_to_names_rewrites_cells (series : frame (option string))
    (mapping : lookup_series) :
  NoDup (labels series) → NoDup mapping.*1 →
  let m : gmap string string := list_to_map mapping in
  ids_to_names series mapping = Ok (smap (rewrite_cell m) series)
  ∧ rewrite_cell m None = None
  ∧ (∀ s, rewrite_cell m (Some s)
          = match omap (λ k, m !! k) (Str.split Str.comma s) with
            | [] => None
            | names => Some (Str.join "," names)
            end)
  ∧ (∀ s, (∀ t, t ∈ Str.split Str.comma s → m !! t = None) →
          rewrite_cell m (Some s) = None)
  ∧ (∀ k n, m !! k = Some n ↔ (k, n) ∈ mapping).
Proof.
  intros Hl Hm m. split; [by apply ids_to_names_unique|].
  split; [done|]. split; [done|]. split.
  - intros s Hall. unfold rewrite_cell, cell_names.
    by rewrite omap_all_None.
  - intros k n. unfold m. symmetry. by apply elem_of_list_to_map.
Qed.

Lemma ids_to_names_rewrites_cells_witness :
  ids_to_names [(0, Some "n1,n2,n3"); (1, Some "n2"); (2, None)]
               [("n1", "Ann (1)"); ("n3", "Ann (2)")]
  = Ok [(0, Some "Ann (1),Ann (2)"); (1, None); (2, None)].
Proof.
  destruct (ids_to_names_rewrites_cells
              [(0, Some "n1,n2,n3"); (1, Some "n2"); (2, None)]
              [("n1", "Ann (1)"); ("n3", "Ann (2)")]) as [H _].
  - apply (bool_decide_unpack _). vm_compute. reflexivity.
  - apply (bool_decide_unpack _). vm_compute. reflexivity.
  - rewrite H. vm_compute. reflexivity.
Defined.

(** ** Scanning name.basics *)

Lemma elem_of_nconst_set (rows : list person) i :
  i ∈ nconst_set rows ↔ ∃ p, p ∈ rows ∧ nconst p = Some i.
Proof.
  unfold nconst_set. rewrite elem_of_list_to_set, list_elem_of_omap. done.
Qed.

Lemma nconst_set_app (rows1 rows2 : list person) :
  nconst_set (rows1 ++ rows2) = nconst_set rows1 ∪ nconst_set rows2.
Proof. unfold nconst_set. by rewrite omap_app, list_to_set_app_L. Qed.

Lemma valid_ids_nil : valid_ids [] = ∅.
Proof. done. Qed.

Lemma valid_ids_cons c reader :
  valid_ids (c :: reader) = nconst_set (dropna_people c) ∪ valid_ids reader.
Proof. unfold valid_ids. rewrite fmap_cons. simpl. apply nconst_set_app. Qed.

Lemma valid_ids_app reader1 reader2 :
  valid_ids (reader1 ++ reader2) = valid_ids reader1 ∪ valid_ids reader2.
Proof.
  unfold valid_ids. by rewrite fmap_app, join_app, nconst_set_app.
Qed.


Lemma found_stop (F R V V' : gset string) :
  R ∖ V = ∅ → F ∪ (R ∩ V) = F ∪ (R ∩ (V ∪ V')).
Proof.
  intros He. apply set_eq. intros x.
  assert (x ∉ R ∖ V) as Hx by (rewrite He; apply not_elem_of_empty).
  rewrite !elem_of_union, !elem_of_intersection, elem_of_union.
  rewrite elem_of_difference in Hx.
  destruct (decide (x ∈ V)); tauto.
Qed.

Lemma found_next (F R V V' : gset string) :
  F ∪ (R ∩ V) ∪ (R ∖ V ∩ V') = F ∪ (R ∩ (V ∪ V')).
Proof.
  apply set_eq. intros x.
  rewrite !elem_of_union, !elem_of_intersection, elem_of_difference,
    elem_of_union.
  destruct (decide (x ∈ V)); tauto.
Qed.

Lemma difference_union_stop (R V V' : gset string) :
  R ∖ V = ∅ → R ∖ (V ∪ V') = ∅.
Proof.
  intros He. apply set_eq. intros x.
  assert (x ∉ R ∖ V) as Hx by (rewrite He; apply not_elem_of_empty).
  rewrite elem_of_difference, elem_of_union. rewrite elem_of_difference in Hx.
  split; [tauto|]. intros Hx'. by apply not_elem_of_empty in Hx'.
Qed.

Lemma difference_union_next (R V V' : gset string) :
  R ∖ V ∖ V' = R ∖ (V ∪ V').
Proof.
  apply set_eq. intros x. rewrite !elem_of_difference, elem_of_union. tauto.
Qed.

Lemma difference_intersection (R V : gset string) : R ∖ (R ∩ V) = R ∖ V.
Proof.
  apply set_eq. intros x. rewrite !elem_of_difference, elem_of_intersection.
  tauto.
Qed.

Lemma filter_none {A} (P : A → Prop) `{∀ x, Decision (P x)} (l : list A) :
  (∀ x, x ∈ l → ¬ P x) → filter P l = [].
Proof.
  intros Hno. destruct (filter P l) as [|x xs] eqn:Hf; [done|].
  assert (x ∈ filter P l) as Hx by (rewrite Hf; left).
  apply list_elem_of_filter in Hx as [HP Hx]. by destruct (Hno x Hx).
Qed.

(** The complete rows of a chunk with a given identifier. *)
Lemma filter_dropna_people i c :
  filter (λ p, nconst p = Some i) (dropna_people c)
  = filter (λ p, nconst p = Some i ∧ is_Some (primaryName p)) c.
Proof.
  unfold dropna_people. rewrite list_filter_filter. apply list_filter_iff.
  intros p. split.
  - intros [Hi [_ Hn]]. done.
  - intros [Hi Hn]. split; [done|]. split; [|done]. rewrite Hi. by eexists.
Qed.

Lemma first_rows_at i reader : ∀ k c,
  reader !! k = Some c →
  (∃ p, p ∈ c ∧ nconst p = Some i ∧ is_Some (primaryName p)) →
  (∀ k' c' p', k' < k → reader !! k' = Some c' → p' ∈ c' →
     nconst p' = Some i → primaryName p' = None) →
  first_rows i reader
  = filter (λ p, nconst p = Some i ∧ is_Some (primaryName p)) c.
Proof.
  induction reader as [|c0 reader IH]; intros [|k] c Hc Hex Hbefore;
    try done; cbn [first_rows]; rewrite filter_dropna_people.
  - cbn in Hc. injection Hc as ->.
    destruct (filter _ c) as [|q rows] eqn:Hf; [|done]. exfalso.
    destruct Hex as (p & Hp & Hi & Hn).
    assert (p ∈ filter (λ p, nconst p = Some i ∧ is_Some (primaryName p)) c)
      as Hpf by by apply list_elem_of_filter.
    rewrite Hf in Hpf. by apply elem_of_nil in Hpf.
  - destruct (filter _ c0) as [|q rows] eqn:Hf.
    + apply (IH k c); [done|done|]. intros k' c' p' Hk' Hc' Hp' Hi'.
      apply (Hbefore (S k') c' p'); [lia|done..].
    + exfalso.
      assert (q ∈ filter (λ p, nconst p = Some i ∧ is_Some (primaryName p)) c0)
        as Hqf by (rewrite Hf; left).
      apply list_elem_of_filter in Hqf as [[Hqi [n Hn]] Hq].
      specialize (Hbefore 0 c0 q ltac:(lia) eq_refl Hq Hqi). congruence.
Qed.

Lemma first_rows_cases i reader :
  first_rows i reader = []
  ∨ ∃ k c, reader !! k = Some c
      ∧ (∃ p, p ∈ c ∧ nconst p = Some i ∧ is_Some (primaryName p))
      ∧ (∀ k' c' p', k' < k → reader !! k' = Some c' → p' ∈ c' →
           nconst p' = Some i → primaryName p' = None)
      ∧ first_rows i reader
        = filter (λ p, nconst p = Some i ∧ is_Some (primaryName p)) c.
Proof.
  induction reader as [|c0 reader IH]; [by left|].
  cbn [first_rows]. rewrite filter_dropna_people.
  destruct (filter _ c0) as [|q rows] eqn:Hf.
  - destruct IH as [IH|(k & c & Hc & Hex & Hbefore & Heq)]; [by left|].
    right. exists (S k), c. split; [done|]. split; [done|]. split; [|done].
    intros [|k'] c' p' Hk' Hc' Hp' Hi'.
    + cbn in Hc'. injection Hc' as <-.
      destruct (primaryName p') as [n|] eqn:Hn; [|done]. exfalso.
      assert (p' ∈ filter (λ p, nconst p = Some i ∧ is_Some (primaryName p)) c0)
        as Hpf.
      { apply list_elem_of_filter. split; [|done]. split; [done|].
        rewrite Hn. by eexists. }
      rewrite Hf in Hpf. by apply elem_of_nil in Hpf.
    + apply (Hbefore k' c' p'); [lia|done..].
  - right. exists 0, c0. split; [done|]. split; [|split; [|done]].
    + assert (q ∈ filter (λ p, nconst p = Some i ∧ is_Some (primaryName p)) c0)
        as Hqf by (rewrite Hf; left).
      apply list_elem_of_filter in Hqf as [[Hqi Hn] Hq]. by exists q.
    + intros k' c' p' Hk'. lia.
Qed.

Lemma first_rows_none i reader :
  (∀ c p, c ∈ reader → p ∈ c → nconst p = Some i → primaryName p = None) →
  first_rows i reader = [].
Proof.
  intros Hno.
  destruct (first_rows_cases i reader)
    as [Hnil|(k & c & Hc & (p & Hp & Hi & [n Hn]) & _)]; [done|].
  apply list_elem_of_lookup_2 in Hc. specialize (Hno c p Hc Hp Hi). congruence.
Qed.

(** A frame has an identifier at most once when no identifier has two
    rows. *)
Lemma NoDup_omap_nconst (people : list person) :
  NoDup (omap nconst people)
  ↔ ∀ i, length (filter (λ p, nconst p = Some i) people) ≤ 1.
Proof.
  induction people as [|p people IH].
  { split; [intros _ i; cbn; lia|intros _; constructor]. }
  rewrite omap_cons. destruct (nconst p) as [j|] eqn:Hj.
  - rewrite NoDup_cons, IH. split.
    + intros [Hnot Hall] i. rewrite filter_cons.
      destruct (decide (nconst p = Some i)) as [Hpi|Hpi]; [|apply Hall].
      assert (i = j) as -> by congruence. cbn [length].
      rewrite filter_none; [cbn; lia|].
      intros q Hq Hqj. apply Hnot. apply list_elem_of_omap. by exists q.
    + intros Hall. split.
      * intros Hin. apply list_elem_of_omap in Hin as (q & Hq & Hqj).
        specialize (Hall j). rewrite filter_cons, decide_True in Hall by done.
        cbn [length] in Hall.
        assert (q ∈ filter (λ p, nconst p = Some j) people) as Hqf
          by by apply list_elem_of_filter.
        destruct (filter _ people); [by apply elem_of_nil in Hqf|].
        cbn in Hall. lia.
      * intros i. specialize (Hall i). rewrite filter_cons in Hall.
        destruct (decide _); cbn [length] in Hall; lia.
  - rewrite IH. split; intros Hall i; specialize (Hall i).
    + rewrite filter_cons, decide_False by congruence. done.
    + rewrite filter_cons, decide_False in Hall by congruence. done.
Qed.

Section scan.
Context `{PyHash}.

Lemma isin_spec x (values : gset string) :
  isin x values = true ↔ x ∈ values.
Proof.
  unfold isin. rewrite bool_decide_eq_true, set_iter_perm.
  apply elem_of_elements.
Qed.

(** The rows of a chunk that the loop keeps. *)
Let matches (values : gset string) (c : chunk) : list person :=
  filter (λ p, nconst_isin values p = true) (dropna_people c).

Lemma nconst_matches values c :
  omap nconst (matches values c)
  = filter (λ i, i ∈ values) (omap nconst (dropna_people c)).
Proof.
  unfold matches. induction (dropna_people c) as [|p rows IH]; [done|].
  rewrite filter_cons, (omap_cons nconst p rows).
  destruct (decide (nconst_isin values p = true)) as [Hm|Hm].
  - rewrite omap_cons. unfold nconst_isin in Hm.
    destruct (nconst p) as [i|]; [|done]. apply isin_spec in Hm.
    rewrite filter_cons, decide_True by done. by f_equal.
  - unfold nconst_isin in Hm. destruct (nconst p) as [i|]; [|done].
    rewrite filter_cons, decide_False; [done|]. by rewrite <- isin_spec.
Qed.

Lemma nconst_set_matches values c :
  nconst_set (matches values c) = values ∩ nconst_set (dropna_people c).
Proof.
  unfold nconst_set. rewrite nconst_matches. apply set_eq. intros i.
  rewrite elem_of_list_to_set, list_elem_of_filter, elem_of_intersection.
  by rewrite elem_of_list_to_set.
Qed.

(** What one turn of the loop does to the loop variables. *)
Lemma scan_chunk_spec idx c st :
  let ms := matches (remaining_ids st) c in
  let st' := (scan_chunk idx c st).1 in
  mjoin (frames st') = mjoin (frames st) ++ ms
  ∧ remaining_ids st' = remaining_ids st ∖ nconst_set ms
  ∧ total_matched st' = total_matched st + length ms
  ∧ pulls st' = pulls st
  ∧ ((scan_chunk idx c st).2 = true ↔ remaining_ids st' = ∅).
Proof.
  intros ms st'. unfold st', scan_chunk. fold (matches (remaining_ids st) c).
  fold ms. destruct ms as [|p ms'] eqn:Hms.
  - destruct (decide (idx `mod` 10 = 0)); simpl;
      destruct (decide (remaining_ids st = ∅)) as [He|He]; simpl;
      rewrite ?app_nil_r, ?Nat.add_0_r;
      (repeat split; try done; try set_solver).
  - destruct (decide (idx `mod` 10 = 0)); simpl;
      destruct (decide (_ = ∅)) as [He|He]; simpl;
      rewrite ?join_app; simpl; rewrite ?app_nil_r;
      (repeat split; try done).
Qed.

Lemma scan_cons c reader idx st :
  scan (c :: reader) idx st
  = let r := scan_chunk idx c
               {| frames := frames st; remaining_ids := remaining_ids st;
                  total_matched := total_matched st;
                  scan_log := scan_log st;
                  pulls := pulls st ++ [remaining_ids st] |} in
    if r.2 then r.1 else scan reader (S idx) r.1.
Proof. simpl. by destruct (scan_chunk _ _ _). Qed.

(** One turn of the loop, in terms of the identifiers of the chunk. *)
Lemma scan_turn idx c st :
  let r := scan_chunk idx c
             {| frames := frames st; remaining_ids := remaining_ids st;
                total_matched := total_matched st;
                scan_log := scan_log st;
                pulls := pulls st ++ [remaining_ids st] |} in
  mjoin (frames r.1) = mjoin (frames st) ++ matches (remaining_ids st) c
  ∧ remaining_ids r.1 = remaining_ids st ∖ nconst_set (dropna_people c)
  ∧ pulls r.1 = pulls st ++ [remaining_ids st]
  ∧ (r.2 = true ↔ remaining_ids r.1 = ∅).
Proof.
  intros r. unfold r.
  destruct (scan_chunk_spec idx c
             {| frames := frames st; remaining_ids := remaining_ids st;
                total_matched := total_matched st;
                scan_log := scan_log st;
                pulls := pulls st ++ [remaining_ids st] |})
    as (Hf & Hr & _ & Hp & Hstop).
  simpl in *. repeat split; try done.
  - rewrite Hr, nconst_set_matches. apply difference_intersection.
  - apply Hstop.
  - apply Hstop.
Qed.

(** What the scan finds and what it leaves outstanding. *)
Lemma scan_found reader : ∀ idx st,
  let st' := scan reader idx st in
  nconst_set (mjoin (frames st'))
  = nconst_set (mjoin (frames st)) ∪ (remaining_ids st ∩ valid_ids reader)
  ∧ remaining_ids st' = remaining_ids st ∖ valid_ids reader.
Proof.
  induction reader as [|c reader IH]; intros idx st.
  - simpl. rewrite valid_ids_nil.
    by rewrite intersection_empty_r_L, union_empty_r_L, difference_empty_L.
  - intros st'. unfold st'. rewrite scan_cons, valid_ids_cons.
    destruct (scan_turn idx c st) as (Hf & Hr & _ & Hstop).
    cbv zeta in *. destruct (scan_chunk idx c _) as [st2 stop]. simpl in *.
    destruct stop.
    + assert (remaining_ids st2 = ∅) as He by by apply Hstop.
      rewrite Hf, nconst_set_app, nconst_set_matches, He.
      rewrite He in Hr. symmetry in Hr. split.
      * by apply found_stop.
      * symmetry. by apply difference_union_stop.
    + destruct (IH (S idx) st2) as [IH1 IH2]. rewrite IH1, IH2.
      rewrite Hf, nconst_set_app, nconst_set_matches, Hr. split.
      * apply found_next.
      * apply difference_union_next.
Qed.

(** The chunks the scan pulls, with the outstanding set at each pull. *)
Lemma scan_pulls reader : ∀ idx st,
  remaining_ids st ≠ ∅ →
  let st' := scan reader idx st in
  let outstanding k := remaining_ids st ∖ valid_ids (take k reader) in
  ∃ n, n ≤ length reader
    ∧ pulls st' = pulls st ++ (outstanding <$> seq 0 n)
    ∧ (∀ k, k < n → outstanding k ≠ ∅)
    ∧ remaining_ids st' = outstanding n
    ∧ (n < length reader → outstanding n = ∅)
    ∧ (reader ≠ [] → 1 ≤ n).
Proof.
  induction reader as [|c reader IH]; intros idx st Hne st' outstanding.
  - exists 0. unfold st', outstanding. simpl. rewrite valid_ids_nil.
    rewrite app_nil_r, difference_empty_L. repeat split; try done; lia.
  - unfold st'. rewrite scan_cons.
    destruct (scan_turn idx c st) as (_ & Hr & Hp & Hstop).
    cbv zeta in *. destruct (scan_chunk idx c _) as [st2 stop]. simpl in *.
    assert (outstanding 0 = remaining_ids st) as H0.
    { unfold outstanding. simpl. rewrite valid_ids_nil.
      apply difference_empty_L. }
    assert (∀ k, outstanding (S k)
                 = remaining_ids st2 ∖ valid_ids (take k reader)) as HS.
    { intros k. unfold outstanding. simpl. rewrite valid_ids_cons, Hr.
      symmetry. apply difference_union_next. }
    destruct stop.
    + assert (remaining_ids st2 = ∅) as He by by apply Hstop.
      exists 1. split; [lia|]. split; [by rewrite Hp; simpl; rewrite H0|].
      split; [intros k Hk; assert (k = 0) as -> by lia; by rewrite H0|].
      assert (outstanding 1 = ∅) as H1.
      { rewrite HS, He. apply set_eq. intros x. rewrite elem_of_difference.
        split; [intros [Hx _]|intros Hx]; by apply not_elem_of_empty in Hx. }
      rewrite H1. done.
    + assert (remaining_ids st2 ≠ ∅) as Hne2.
      { intros He. by apply Hstop in He. }
      destruct (IH (S idx) st2 Hne2) as (n & Hn & Hpulls & Hall & Hrem & Hend & _).
      exists (S n). split; [lia|]. split.
      { rewrite Hpulls, Hp, <- (assoc_L app). f_equal. simpl.
        rewrite H0. f_equal. rewrite <- fmap_S_seq, <- list_fmap_compose.
        apply list_fmap_ext. intros _ k _. simpl. by rewrite HS. }
      split.
      { intros [|k] Hk; [by rewrite H0|]. rewrite HS. apply Hall. lia. }
      split; [by rewrite HS|]. split; [|lia].
      intros Hlt. rewrite HS. apply Hend. lia.
Qed.


Lemma scan_complete_rows reader : ∀ idx st,
  Forall (λ p, is_Some (nconst p) ∧ is_Some (primaryName p))
         (mjoin (frames st)) →
  Forall (λ p, is_Some (nconst p) ∧ is_Some (primaryName p))
         (mjoin (frames (scan reader idx st))).
Proof.
  induction reader as [|c reader IH]; intros idx st Hst; [done|].
  rewrite scan_cons. destruct (scan_turn idx c st) as (Hf & _).
  cbv zeta in *. destruct (scan_chunk idx c _) as [st2 stop]. simpl in *.
  assert (Forall (λ p, is_Some (nconst p) ∧ is_Some (primaryName p))
                 (mjoin (frames st2))) as H2.
  { rewrite Hf. apply Forall_app. split; [done|].
    apply Forall_forall. intros p Hp. unfold matches in Hp.
    apply list_elem_of_filter in Hp as [_ Hp].
    by apply list_elem_of_filter in Hp as [Hp _]. }
  destruct stop; [done|]. by apply IH.
Qed.

(** The rows of the result that carry a given identifier. *)
Lemma filter_matches i values c :
  filter (λ p, nconst p = Some i) (matches values c)
  = if decide (i ∈ values)
    then filter (λ p, nconst p = Some i) (dropna_people c)
    else [].
Proof.
  unfold matches. rewrite list_filter_filter.
  destruct (decide (i ∈ values)) as [Hi|Hi].
  - apply list_filter_iff. intros p. split; [tauto|]. intros Hp.
    split; [done|]. unfold nconst_isin. rewrite Hp. by apply isin_spec.
  - apply filter_none. intros p _ [Hp Hm]. apply Hi.
    unfold nconst_isin in Hm. rewrite Hp in Hm. by apply isin_spec.
Qed.

Lemma scan_rows i reader : ∀ idx st,
  filter (λ p, nconst p = Some i) (mjoin (frames (scan reader idx st)))
  = filter (λ p, nconst p = Some i) (mjoin (frames st))
    ++ if decide (i ∈ remaining_ids st) then first_rows i reader else [].
Proof.
  induction reader as [|c reader IH]; intros idx st.
  { cbn [scan first_rows]. destruct (decide _); by rewrite app_nil_r. }
  rewrite scan_cons. destruct (scan_turn idx c st) as (Hf & Hr & _ & Hstop).
  cbv zeta in *. destruct (scan_chunk idx c _) as [st2 stop].
  cbn [fst snd] in *.
  assert (filter (λ p, nconst p = Some i) (mjoin (frames st2))
          = filter (λ p, nconst p = Some i) (mjoin (frames st))
            ++ if decide (i ∈ remaining_ids st)
               then filter (λ p, nconst p = Some i) (dropna_people c)
               else []) as Hhere.
  { by rewrite Hf, filter_app, filter_matches. }
  assert (i ∈ nconst_set (dropna_people c)
          ↔ filter (λ p, nconst p = Some i) (dropna_people c) ≠ []) as Hin.
  { rewrite elem_of_nconst_set. split.
    - intros (p & Hp & Hpi) Hnil.
      assert (p ∈ filter (λ p, nconst p = Some i) (dropna_people c)) as Hpf
        by by apply list_elem_of_filter.
      rewrite Hnil in Hpf. by apply elem_of_nil in Hpf.
    - destruct (filter _ (dropna_people c)) as [|p rows] eqn:Hrows; [done|].
      intros _. exists p.
      assert (p ∈ filter (λ p, nconst p = Some i) (dropna_people c)) as Hpf
        by (rewrite Hrows; left).
      apply list_elem_of_filter in Hpf. tauto. }
  cbn [first_rows].
  assert (stop = true → remaining_ids st2 = ∅) as Hempty by apply Hstop.
  destruct (decide (i ∈ remaining_ids st)) as [Hi|Hi].
  - destruct (filter (λ p, nconst p = Some i) (dropna_people c))
      as [|p rows] eqn:Hrows.
    + assert (i ∈ remaining_ids st2) as Hi2.
      { rewrite Hr. apply elem_of_difference. split; [done|].
        rewrite Hin. tauto. }
      destruct stop.
      { rewrite Hempty in Hi2 by done. by apply elem_of_empty in Hi2. }
      rewrite IH, Hhere, decide_True by done. by rewrite app_nil_r.
    + assert (i ∉ remaining_ids st2) as Hi2.
      { rewrite Hr, elem_of_difference, Hin. intros [_ Hno]. by apply Hno. }
      destruct stop; [done|].
      rewrite IH, Hhere, decide_False by done. by rewrite app_nil_r.
  - assert (i ∉ remaining_ids st2) as Hi2.
    { rewrite Hr, elem_of_difference. tauto. }
    destruct stop; [done|].
    rewrite IH, Hhere, decide_False by done. by rewrite app_nil_r.
Qed.

End scan.

(** ** Running the script *)

Lemma run_bind {A B} (m : M A) (f : A → M B) (w : world) :
  (m ≫= f) w = match m w with
               | (Ok a, w') => f a w'
               | (Raise e, w') => (Raise e, w')
               end.
Proof. done. Qed.

Lemma effects_none w : effects w (csv_file w) [] [] 0 = w.
Proof.
  destruct w. unfold effects, printed. simpl.
  by rewrite !app_nil_r, Nat.add_0_r.
Qed.

Lemma printed_app v entries1 entries2 :
  printed v (entries1 ++ entries2) = printed v entries1 ++ printed v entries2.
Proof. unfold printed. by rewrite filter_app, fmap_app. Qed.

Lemma effects_effects w f1 e1 d1 n1 f2 e2 d2 n2 :
  effects (effects w f1 e1 d1 n1) f2 e2 d2 n2
  = effects w f2 (e1 ++ e2) (d1 ++ d2) (n1 + n2).
Proof.
  unfold effects. simpl.
  by rewrite printed_app, !(assoc_L app), (assoc_L Nat.add).
Qed.

Lemma run_log detail m w :
  log detail m w = (Ok (), effects w (csv_file w) [(detail, m)] [] 0).
Proof.
  destruct w as [r f v c d n]. unfold log, printed. rewrite run_bind.
  unfold get, effects, print, with_console, printed. simpl.
  rewrite app_nil_r, Nat.add_0_r.
  destruct detail, v; simpl; rewrite ?app_nil_r; done.
Qed.

Lemma run_log_all entries : ∀ w,
  log_all entries w = (Ok (), effects w (csv_file w) entries [] 0).
Proof.
  induction entries as [|[detail m] entries IH]; intros w.
  - by rewrite effects_none.
  - cbn [log_all]. rewrite run_bind, run_log, IH. by rewrite effects_effects.
Qed.

Lemma run_http_get name w :
  http_get name w = (Ok (), effects w (csv_file w) [] [name] 0).
Proof.
  destruct w. unfold http_get, effects, with_downloads, printed. simpl.
  by rewrite app_nil_r, Nat.add_0_r.
Qed.

Lemma run_pulled n w :
  pulled n w = (Ok (), effects w (csv_file w) [] [] n).
Proof.
  destruct w. unfold pulled, effects, with_chunks_read, printed. simpl.
  by rewrite !app_nil_r.
Qed.

Lemma run_to_csv table w :
  to_csv table w = (Ok (), effects w (Some table) [] [] 0).
Proof.
  destruct w. unfold to_csv, effects, with_csv_file, printed. simpl.
  by rewrite !app_nil_r, Nat.add_0_r.
Qed.

Lemma run_get {A} (f : world → A) w : get f w = (Ok (f w), w).
Proof. done. Qed.

Lemma run_ret {A} (a : A) (w : world) : (mret a : M A) w = (Ok a, w).
Proof. done. Qed.

Lemma run_lift {A} (r : result A) (w : world) : lift r w = (r, w).
Proof. done. Qed.

Lemma csv_file_effects w f e d n : csv_file (effects w f e d n) = f.
Proof. done. Qed.

Lemma remote_effects w f e d n : remote (effects w f e d n) = remote w.
Proof. done. Qed.

(** Symbolic execution of a computation, one call at a time. *)
Ltac run_step :=
  first [ rewrite run_bind | rewrite run_log | rewrite run_log_all
        | rewrite run_http_get | rewrite run_pulled | rewrite run_to_csv
        | rewrite run_get | rewrite run_ret | rewrite run_lift ];
  cbv beta iota;
  rewrite ?csv_file_effects, ?remote_effects, ?effects_effects.

Ltac run :=
  repeat run_step; cbn [app Nat.add fst snd];
  rewrite ?app_nil_r, ?Nat.add_0_r.

Lemma run_download name w :
  download_imdb_archive name w
  = (Ok (), effects w (csv_file w)
              [(false, Downloading name); (true, FinishedDownloading name)]
              [name] 0).
Proof. unfold download_imdb_archive. by run. Qed.

Lemma run_read_imdb_tsv {R} name (table : datasets → list R) w :
  read_imdb_tsv name table w
  = (Ok (table (remote w)),
     effects w (csv_file w)
       [(false, Downloading name); (true, FinishedDownloading name);
        (true, Parsing name);
        (true, Loaded (length (table (remote w))) name)]
       [name] 0).
Proof.
  unfold read_imdb_tsv. rewrite run_bind, run_download. by run.
Qed.

Lemma merge_tables_Ok basics ratings crew df :
  merge_tables basics ratings crew = Ok df →
  df = merge_titles basics ratings crew.
Proof.
  unfold merge_tables. cbv zeta.
  destruct (coerce_merge_keys _ _ (b_tconst <$> basics) _); [|done].
  destruct (coerce_merge_keys _ _ _ _); [|done].
  by intros [= <-].
Qed.

Lemma collect_ids_typed_Ok crew df ids :
  collect_ids_typed crew df = Ok ids → ids = collect_ids df.
Proof.
  unfold collect_ids_typed.
  destruct (str_accessor (read_dtype (c_directors <$> crew))); [|done].
  destruct (str_accessor _); [|done]. by intros [= <-].
Qed.

Section run.
Context `{PyHash}.

Lemma run_load_relevant_people (relevant_ids : gset string) w :
  load_relevant_people relevant_ids w
  = if decide (relevant_ids = ∅)
    then (Ok [], effects w (csv_file w) [(true, NoRelevantIds)] [] 0)
    else
      let ps := scan_people relevant_ids
                  (read_chunks chunksize (name_basics (remote w))) in
      (Ok ps.1,
       effects w (csv_file w)
         ([(false, Downloading "name.basics");
           (true, FinishedDownloading "name.basics");
           (true, ScanningChunks)] ++ scan_log ps.2)
         ["name.basics"] (length (pulls ps.2))).
Proof.
  unfold load_relevant_people.
  destruct (decide (relevant_ids = ∅)) as [He|He].
  - by run.
  - rewrite run_bind, run_download. run.
    destruct (scan_people _ _) as [people st]. by run.
Qed.

(** A call of [build_imdb_csv]: the cache, or one run of the pipeline. *)
Lemma run_build_imdb_csv force v w :
  let w0 := if decide (verbose w ≠ v) then with_verbose v w else w in
  build_imdb_csv force v w
  = if notna (csv_file w) && negb force
    then (Ok CSV_PATH, effects w0 (csv_file w) [(false, UsingCached)] [] 0)
    else (match build_table (remote w) with
          | Ok _ => Ok CSV_PATH
          | Raise e => Raise e
          end,
          effects w0
            match build_table (remote w) with
            | Ok table => Some table
            | Raise _ => csv_file w
            end
            (pipeline_entries (remote w)) (pipeline_downloads (remote w))
            (pipeline_chunks (remote w))).
Proof.
  intros w0.
  set (ids := collect_ids (filtered_titles (remote w))).
  assert (csv_file w0 = csv_file w ∧ remote w0 = remote w) as [Hcsv Hrem].
  { unfold w0. by destruct (decide (verbose w ≠ v)). }
  assert (build_imdb_csv force v w
          = (get csv_file ≫= λ cached,
             if notna cached && negb force then
               log false UsingCached;; mret CSV_PATH
             else
               log false Building;;
               basics ← read_imdb_tsv "title.basics" title_basics;
               ratings ← read_imdb_tsv "title.ratings" title_ratings;
               crew ← read_imdb_tsv "title.crew" title_crew;
               log true MergingTables;;
               df ← lift (merge_tables basics ratings crew);
               log true ApplyingFilters;;
               let df := filter_titles df in
               log true CollectingIds;;
               relevant_ids ← lift (collect_ids_typed crew df);
               log true (UniqueIds (size relevant_ids));;
               relevant_people ← load_relevant_people relevant_ids;
               relevant_people ←
                 match relevant_people with
                 | [] => log true NoRelevantPeople;; mret relevant_people
                 | _ => log true Disambiguating;;
                        mret (disambiguate_people relevant_people)
                 end;
               log true BuildingLookup;;
               let name_map := name_map relevant_people in
               d ← lift (ids_to_names (column directors df) name_map);
               let df := set_directors df d in
               w ← lift (ids_to_names (column writers df) name_map);
               let df := set_writers df w in
               let table := astype_dtypes <$> (drop_columns <$> df.*2) in
               log false WritingCsv;;
               to_csv table;;
               mret CSV_PATH) w0) as ->.
  { unfold build_imdb_csv, w0. rewrite run_bind, run_get. cbv beta iota.
    rewrite run_bind. destruct (decide (verbose w ≠ v)); done. }
  rewrite run_bind, run_get. cbv beta iota. rewrite Hcsv.
  destruct (notna (csv_file w) && negb force); [run; by rewrite Hcsv|].
  rewrite run_bind, run_log. cbv beta iota.
  rewrite run_bind, run_read_imdb_tsv. cbv beta iota.
  rewrite run_bind, run_read_imdb_tsv. cbv beta iota.
  rewrite run_bind, run_read_imdb_tsv. cbv beta iota.
  rewrite ?csv_file_effects, ?remote_effects, ?effects_effects, Hcsv, Hrem.
  rewrite run_bind, run_log. cbv beta iota.
  rewrite ?csv_file_effects, ?effects_effects, ?Hcsv.
  rewrite run_bind, run_lift. cbv beta iota.
  unfold pipeline_entries, pipeline_downloads, pipeline_chunks, typing,
    build_table, read_entries.
  destruct (merge_tables _ _ _) as [df0|e] eqn:Hmerge; [|done].
  apply merge_tables_Ok in Hmerge as ->.
  fold (filtered_titles (remote w)). fold ids.
  do 2 (rewrite run_bind, run_log; cbv beta iota zeta;
        rewrite ?csv_file_effects, ?effects_effects, ?Hcsv).
  rewrite run_bind, run_lift. cbv beta iota.
  destruct (collect_ids_typed _ _) as [ids0|e] eqn:Hids;
    [|by rewrite <- !(assoc_L app)].
  apply collect_ids_typed_Ok in Hids as ->. fold ids.
  rewrite run_bind, run_log. cbv beta iota.
  rewrite ?csv_file_effects, ?effects_effects, ?Hcsv.
  rewrite run_bind, run_load_relevant_people.
  rewrite ?csv_file_effects, ?remote_effects, ?effects_effects, ?Hcsv, ?Hrem.
  unfold load_entries, name_map_of, relevant_people_of. fold ids.
  set (df := filtered_titles (remote w)).
  destruct (decide (ids = ∅)) as [He|He]; cbv beta iota zeta.
  - run. rewrite ?Hcsv.
    destruct (ids_to_names (column directors df) (name_map []))
      as [ds|e]; [|run; by rewrite <- ?(assoc_L app)].
    run. rewrite ?Hcsv.
    destruct (ids_to_names (column writers (set_directors df ds))
                (name_map [])) as [ws|e]; run; by rewrite <- ?(assoc_L app).
  - set (ps := scan_people ids _). rewrite ?effects_effects.
    destruct (ps.1) as [|p people] eqn:Hps.
    + run. rewrite ?Hcsv.
      destruct (ids_to_names (column directors df) (name_map []))
        as [ds|e]; [|run; by rewrite <- ?(assoc_L app)].
      run. rewrite ?Hcsv.
      destruct (ids_to_names (column writers (set_directors df ds))
                  (name_map [])) as [ws|e]; run; by rewrite <- ?(assoc_L app).
    + run. rewrite ?Hcsv.
      destruct (ids_to_names (column directors df)
                  (name_map (disambiguate_people (p :: people))))
        as [ds|e]; [|run; by rewrite <- ?(assoc_L app)].
      run. rewrite ?Hcsv.
      destruct (ids_to_names (column writers (set_directors df ds))
                  (name_map (disambiguate_people (p :: people))))
        as [ws|e]; run; by rewrite <- ?(assoc_L app).
Qed.

Lemma run_pipeline force v w :
  notna (csv_file w) && negb force = false →
  build_imdb_csv force v w
  = (match build_table (remote w) with
     | Ok _ => Ok CSV_PATH
     | Raise e => Raise e
     end,
     effects (if decide (verbose w ≠ v) then with_verbose v w else w)
       match build_table (remote w) with
       | Ok table => Some table
       | Raise _ => csv_file w
       end
       (pipeline_entries (remote w)) (pipeline_downloads (remote w))
       (pipeline_chunks (remote w))).
Proof.
  intros Hpipeline. pose proof (run_build_imdb_csv force v w) as Hrun.
  cbv zeta in Hrun. by rewrite Hpipeline in Hrun.
Qed.

End run.

(** ** The reference resolver *)

Section resolver.
Context `{PyHash}.

Lemma scan_people_frame wanted reader :
  (scan_people wanted reader).1
  = mjoin (frames (scan reader 1 (scan_init wanted))).
Proof. done. Qed.

Lemma scan_people_pulls wanted reader :
  pulls (scan_people wanted reader).2
  = pulls (scan reader 1 (scan_init wanted)).
Proof. done. Qed.

Lemma scan_people_remaining wanted reader :
  remaining_ids (scan_people wanted reader).2
  = remaining_ids (scan reader 1 (scan_init wanted)).
Proof. done. Qed.

Lemma scan_people_found wanted reader :
  nconst_set (scan_people wanted reader).1 = wanted ∩ valid_ids reader
  ∧ remaining_ids (scan_people wanted reader).2 = wanted ∖ valid_ids reader.
Proof.
  rewrite scan_people_frame, scan_people_remaining.
  destruct (scan_found reader 1 (scan_init wanted)) as [Hf Hr].
  cbv zeta in *. rewrite Hf, Hr. simpl. split; [|done].
  unfold nconst_set. simpl. apply union_empty_l_L.
Qed.

Lemma name_map_keys (people : list person) :
  Forall (λ p, is_Some (nconst p) ∧ is_Some (primaryName p)) people →
  (name_map people).*1 = omap nconst people.
Proof.
  induction 1 as [|p people [[i Hi] [n Hn]] _ IH]; [done|].
  unfold name_map. rewrite !omap_cons, Hi, Hn. rewrite fmap_cons. simpl.
  f_equal. apply IH.
Qed.

(** C5. With an empty wanted set the resolver returns the empty frame at
    once: no download, no chunk read.  Otherwise every chunk is pulled
    while the outstanding set is non-empty, the scan stops at the first
    chunk after which nothing is outstanding, and when it ends with
    nothing outstanding the last chunk pulled holds a match. *)
Theorem load_relevant_people_stops_early (wanted : gset string)
    (reader : list chunk) (w : world) :
  wanted ≠ ∅ →
  let st := (scan_people wanted reader).2 in
  let n := length (pulls st) in
  let outstanding k := wanted ∖ valid_ids (take k reader) in
  let served := read_chunks chunksize (name_basics (remote w)) in
  (load_relevant_people ∅ w).1 = Ok []
  ∧ downloads (load_relevant_people ∅ w).2 = downloads w
  ∧ chunks_read (load_relevant_people ∅ w).2 = chunks_read w
  ∧ pulls st = outstanding <$> seq 0 n
  ∧ Forall (λ R, R ≠ ∅) (pulls st)
  ∧ n ≤ length reader
  ∧ (n < length reader → outstanding n = ∅)
  ∧ remaining_ids st = outstanding n
  ∧ (remaining_ids st = ∅ →
       ∃ c i, reader !! (n - 1) = Some c ∧ i ∈ wanted
              ∧ i ∈ nconst_set (dropna_people c)
              ∧ i ∉ valid_ids (take (n - 1) reader))
  ∧ (load_relevant_people wanted w).1 = Ok (scan_people wanted served).1
  ∧ downloads (load_relevant_people wanted w).2
    = downloads w ++ ["name.basics"]
  ∧ chunks_read (load_relevant_people wanted w).2
    = chunks_read w + length (pulls (scan_people wanted served).2).
Proof.
  intros Hne st n outstanding served.
  destruct (scan_pulls reader 1 (scan_init wanted) Hne)
    as (m & Hm & Hpulls & Hall & Hrem & Hend & _).
  cbv zeta in *. simpl in Hpulls, Hall, Hrem, Hend.
  assert (n = m) as Hn.
  { unfold n, st.
    by rewrite scan_people_pulls, Hpulls, length_fmap, length_seq. }
  assert (pulls st = outstanding <$> seq 0 n) as Hst.
  { unfold st. by rewrite scan_people_pulls, Hn. }
  assert (remaining_ids st = outstanding n) as Hleft.
  { unfold st. by rewrite scan_people_remaining, Hn. }
  assert (Forall (λ R, R ≠ ∅) (pulls st)) as Hpulled.
  { rewrite Hst. apply Forall_fmap, Forall_forall. intros k Hk.
    apply elem_of_seq in Hk. simpl. apply Hall. lia. }
  assert (remaining_ids st = ∅ →
          ∃ c i, reader !! (n - 1) = Some c ∧ i ∈ wanted
                 ∧ i ∈ nconst_set (dropna_people c)
                 ∧ i ∉ valid_ids (take (n - 1) reader)) as Hlast.
  { intros Hempty. rewrite Hleft in Hempty.
    destruct (decide (n = 0)) as [Hz|Hz].
    { rewrite Hz in Hempty. unfold outstanding in Hempty.
      rewrite take_0, valid_ids_nil, difference_empty_L in Hempty. done. }
    assert (outstanding (n - 1) ≠ ∅) as Hprev by (apply Hall; lia).
    apply set_choose_L in Hprev as [i Hi].
    unfold outstanding in Hi. apply elem_of_difference in Hi as [Hi Hnew].
    destruct (lookup_lt_is_Some_2 reader (n - 1)) as [c Hc]; [lia|].
    exists c, i. repeat (split; [done|]). split; [|done].
    assert (i ∉ outstanding n) as Hnot
      by (rewrite Hempty; apply not_elem_of_empty).
    unfold outstanding in Hnot.
    replace n with (S (n - 1)) in Hnot by lia.
    rewrite (take_S_r _ _ _ Hc), valid_ids_app, valid_ids_cons in Hnot.
    rewrite valid_ids_nil, union_empty_r_L in Hnot.
    rewrite elem_of_difference, elem_of_union in Hnot.
    destruct (decide (i ∈ nconst_set (dropna_people c))); [done|tauto]. }
  assert (n < length reader → outstanding n = ∅) as Hstop
    by (rewrite Hn; apply Hend).
  assert (n ≤ length reader) as Hbound by lia.
  clearbody st n outstanding.
  rewrite !run_load_relevant_people.
  rewrite decide_True by done. rewrite decide_False by done. simpl.
  rewrite app_nil_r, Nat.add_0_r. done.
Qed.

End resolver.

(** ** Repeated identifiers *)

Lemma name_map_keys_nconst (people : list person) :
  Forall (λ p, is_Some (nconst p) ∧ is_Some (primaryName p)) people →
  Some <$> (name_map people).*1 = nconst <$> people.
Proof.
  induction 1 as [|p people [[i Hi] [n Hn]] _ IH]; [done|].
  unfold name_map. rewrite omap_cons, Hi, Hn. rewrite !fmap_cons. simpl.
  rewrite Hi. f_equal. apply IH.
Qed.

Lemma name_map_disambiguate_keys (people : list person) :
  Forall (λ p, is_Some (nconst p) ∧ is_Some (primaryName p)) people →
  (name_map (disambiguate_people people)).*1 = (name_map people).*1.
Proof.
  intros Hall. apply (inj (fmap Some)).
  rewrite !name_map_keys_nconst; [|done|by apply disambiguate_people_complete].
  apply disambiguate_people_nconst.
Qed.

(** A chunk with an identifier on two rows: both rows are kept, and the
    lookup built from them has the identifier twice in its index. *)
Lemma scan_people_repeats_identifier :
  (@scan_people Sample.seed {["n1"]} Sample.repeating).1
  = [Person (Some "n1") (Some "Ann"); Person (Some "n1") (Some "Bob")]
  ∧ (name_map (disambiguate_people
                 (@scan_people Sample.seed {["n1"]} Sample.repeating).1)).*1
    = ["n1"; "n1"].
Proof. vm_compute. done. Qed.

(** A row that repeats an identifier in a later chunk is not returned,
    even when several rows of that chunk carry it. *)
Example scan_people_drops_later_chunks :
  (@scan_people Sample.seed {["n1"; "n2"]}
     [ [Person (Some "n1") (Some "Ann")];
       [Person (Some "n1") (Some "Bob"); Person (Some "n1") (Some "Cy")] ]).1
  = [Person (Some "n1") (Some "Ann")].
Proof. vm_compute. reflexivity. Qed.

(** C7, amended. For every wanted identifier, the frame returned by the
    resolver holds exactly the rows (rows with identifier and name) that
    carry it in the first chunk that has it on such a row, and no row of an
    identifier that is not wanted or that has no such row.  Hence the frame,
    and the lookup built from it before or after the disambiguation, have at
    most one entry per identifier if and only if no wanted identifier is on
    two such rows of the first chunk that holds it. *)
Theorem scan_people_one_entry_per_id `{PyHash} (wanted : gset string)
    (reader : list chunk) :
  let people := (scan_people wanted reader).1 in
  let first_at (i : string) (k : nat) (c : chunk) : Prop :=
    reader !! k = Some c
    ∧ (∃ p, p ∈ c ∧ nconst p = Some i ∧ is_Some (primaryName p))
    ∧ (∀ k' c' p', k' < k → reader !! k' = Some c' → p' ∈ c' →
         nconst p' = Some i → primaryName p' = None) in
  (∀ i k c, i ∈ wanted → first_at i k c →
     filter (λ p, nconst p = Some i) people
     = filter (λ p, nconst p = Some i ∧ is_Some (primaryName p)) c)
  ∧ (∀ i, i ∉ wanted → filter (λ p, nconst p = Some i) people = [])
  ∧ (∀ i, (∀ c p, c ∈ reader → p ∈ c → nconst p = Some i →
             primaryName p = None) →
       filter (λ p, nconst p = Some i) people = [])
  ∧ (NoDup (omap nconst people) ↔
       ∀ i k c, i ∈ wanted → first_at i k c →
         length (filter (λ p, nconst p = Some i ∧ is_Some (primaryName p)) c)
         ≤ 1)
  ∧ (name_map people).*1 = omap nconst people
  ∧ (name_map (disambiguate_people people)).*1 = omap nconst people.
Proof.
  intros people first_at.
  assert (Forall (λ p, is_Some (nconst p) ∧ is_Some (primaryName p)) people)
    as Hrows.
  { unfold people. rewrite scan_people_frame. by apply scan_complete_rows. }
  assert (∀ i, filter (λ p, nconst p = Some i) people
               = if decide (i ∈ wanted) then first_rows i reader else [])
    as Hcount.
  { intros i. unfold people. rewrite scan_people_frame.
    by rewrite (scan_rows i reader 1 (scan_init wanted)). }
  assert (∀ i k c, i ∈ wanted → first_at i k c →
     filter (λ p, nconst p = Some i) people
     = filter (λ p, nconst p = Some i ∧ is_Some (primaryName p)) c) as Hfirst.
  { intros i k c Hi (Hc & Hex & Hbefore).
    rewrite Hcount, decide_True by done. by apply (first_rows_at i reader k). }
  split; [exact Hfirst|]. split; [|split; [|split; [|split]]].
  - intros i Hi. by rewrite Hcount, decide_False.
  - intros i Hno. rewrite Hcount. destruct (decide _); [|done].
    by apply first_rows_none.
  - rewrite NoDup_omap_nconst. split.
    + intros Hone i k c Hi Hat. rewrite <- (Hfirst i k c Hi Hat). apply Hone.
    + intros Hone i. rewrite Hcount. destruct (decide (i ∈ wanted)) as [Hi|Hi];
        [|cbn; lia].
      destruct (first_rows_cases i reader)
        as [->|(k & c & Hc & Hex & Hbefore & ->)]; [cbn; lia|].
      by apply (Hone i k c).
  - by apply name_map_keys.
  - rewrite name_map_disambiguate_keys by done. by apply name_map_keys.
Qed.

Lemma scan_people_one_entry_per_id_witness :
  filter (λ p, nconst p = Some "A")
    (@scan_people Sample.seed {["A"; "B"; "C"]} Sample.reader).1
  = [Person (Some "A") (Some "Ann")].
Proof.
  destruct (@scan_people_one_entry_per_id Sample.seed {["A"; "B"; "C"]}
              Sample.reader) as [Hfirst _].
  rewrite (Hfirst "A" 0 [Person (Some "A") (Some "Ann");
                         Person (Some "X") (Some "Xavier")]).
  - vm_compute. reflexivity.
  - apply (bool_decide_unpack _). vm_compute. reflexivity.
  - split; [reflexivity|]. split.
    + exists (Person (Some "A") (Some "Ann")).
      split; [left|]. split; [reflexivity|by eexists].
    + intros k' c' p' Hk'. lia.
Defined.

(** ** Stripped identifiers *)

Lemma lstrip_idem s : Str.lstrip (Str.lstrip s) = Str.lstrip s.
Proof.
  induction s as [|c s IH]; [done|]. simpl.
  destruct (Str.is_space c) eqn:Hc; [done|]. simpl. by rewrite Hc.
Qed.

Lemma rstrip_idem s : Str.rstrip (Str.rstrip s) = Str.rstrip s.
Proof.
  induction s as [|c s IH]; [done|]. simpl.
  destruct (Str.rstrip s) as [|c' s'] eqn:Hs.
  - destruct (Str.is_space c) eqn:Hc; [done|]. simpl. by rewrite Hc.
  - simpl in *. by rewrite IH.
Qed.

Lemma lstrip_rstrip s :
  Str.lstrip s = s → Str.lstrip (Str.rstrip s) = Str.rstrip s.
Proof.
  destruct s as [|c s]; [done|]. simpl.
  destruct (Str.is_space c) eqn:Hc.
  - intros Heq. exfalso.
    assert (∀ t, String.length (Str.lstrip t) ≤ String.length t) as Hlen.
    { induction t as [|a t IHt]; simpl; [lia|].
      destruct (Str.is_space a); simpl; lia. }
    specialize (Hlen s). rewrite Heq in Hlen. simpl in Hlen. lia.
  - intros _. destruct (Str.rstrip s); simpl; by rewrite Hc.
Qed.

Lemma strip_idem s : Str.strip (Str.strip s) = Str.strip s.
Proof.
  unfold Str.strip.
  rewrite (lstrip_rstrip (Str.lstrip s)) by apply lstrip_idem.
  apply rstrip_idem.
Qed.

Lemma elem_of_dropna {A} (s : frame (option A)) l x :
  (l, x) ∈ dropna s ↔ (l, Some x) ∈ s.
Proof.
  unfold dropna. rewrite list_elem_of_omap. split.
  - intros ([l' [x'|]] & Hin & Heq); simplify_eq/=. done.
  - intros Hin. by exists (l, Some x).
Qed.

Lemma column_ids_stripped (col : frame (option string)) i :
  i ∈ column_ids col → Str.strip i = i.
Proof.
  unfold column_ids. intros Hi. apply list_elem_of_filter in Hi as [_ Hi].
  apply list_elem_of_fmap in Hi as ([l i'] & -> & Hi). simpl.
  apply elem_of_dropna in Hi. unfold smap at 1 in Hi.
  apply list_elem_of_fmap in Hi as ([l' [t|]] & Heq & _); simplify_eq/=.
  apply strip_idem.
Qed.

Lemma collect_ids_stripped (df : frame title) i :
  i ∈ collect_ids df → Str.strip i = i.
Proof.
  unfold collect_ids. simpl. rewrite !elem_of_union, !elem_of_list_to_set.
  intros [[Hi|Hi]|Hi].
  - by apply not_elem_of_empty in Hi.
  - by apply column_ids_stripped in Hi.
  - by apply column_ids_stripped in Hi.
Qed.

Lemma name_map_of_keys `{PyHash} (d : datasets) i :
  i ∈ (name_map_of d).*1 → i ∈ collect_ids (filtered_titles d).
Proof.
  unfold name_map_of, relevant_people_of.
  destruct (decide (collect_ids (filtered_titles d) = ∅)) as [He|He].
  { intros Hi. by apply elem_of_nil in Hi. }
  set (wanted := collect_ids (filtered_titles d)).
  set (reader := read_chunks chunksize (name_basics d)).
  assert (Forall (λ p, is_Some (nconst p) ∧ is_Some (primaryName p))
                 (scan_people wanted reader).1) as Hrows.
  { rewrite scan_people_frame. by apply scan_complete_rows. }
  assert (i ∈ (name_map (scan_people wanted reader).1).*1 → i ∈ wanted)
    as Hkeys.
  { rewrite name_map_keys by done. intros Hi.
    assert (i ∈ nconst_set (scan_people wanted reader).1) as Hin
      by by apply elem_of_list_to_set.
    destruct (scan_people_found wanted reader) as [Hfound _].
    rewrite Hfound in Hin. by apply elem_of_intersection in Hin as [? _]. }
  destruct (scan_people wanted reader).1 as [|p people] eqn:Hps.
  { intros Hi. by apply elem_of_nil in Hi. }
  rewrite name_map_disambiguate_keys by done. exact Hkeys.
Qed.

(** ** The table of a run *)

Lemma labels_column {R A} (f : R → A) (df : frame R) :
  labels (column f df) = labels df.
Proof.
  unfold labels, column, smap. rewrite <- list_fmap_compose.
  by apply list_fmap_ext.
Qed.

Lemma NoDup_filtered_titles (d : datasets) : NoDup (labels (filtered_titles d)).
Proof.
  unfold filtered_titles, filter_titles.
  apply NoDup_labels_filter, NoDup_range_index.
Qed.

Lemma assign_column {A} (u : title → A → title) (g : A → A) (f : title → A)
    (df : frame title) :
  zip_with (λ lt lc, (lt.1, u lt.2 lc.2)) df (smap g (column f df))
  = (λ lt, (lt.1, u lt.2 (g (f lt.2)))) <$> df.
Proof. induction df as [|lt df IH]; [done|]. cbn. f_equal. apply IH. Qed.

(** *** The types of the columns *)

Lemma all_missing_spec {A} (cells : list (option A)) :
  all_missing cells = true ↔ ∀ c, c ∈ cells → c = None.
Proof.
  unfold all_missing. induction cells as [|[x|] cells IH]; cbn [forallb].
  - split; [intros _ c Hc; by apply elem_of_nil in Hc|done].
  - split; [done|]. intros Hall. by specialize (Hall (Some x) ltac:(left)).
  - cbn. rewrite IH. split.
    + intros Hall c Hc. apply elem_of_cons in Hc as [->|Hc]; [done|].
      by apply Hall.
    + intros Hall c Hc. apply Hall. by right.
Qed.

Lemma read_dtype_float64 {A} (cells : list (option A)) :
  read_dtype cells = float64 ↔ cells ≠ [] ∧ ∀ c, c ∈ cells → c = None.
Proof.
  unfold read_dtype. destruct cells as [|c0 cells]; [by split; [|intros []]|].
  destruct (all_missing (c0 :: cells)) eqn:Hall.
  - pose proof (proj1 (all_missing_spec _) Hall) as Hnone. by split.
  - split; [done|]. intros [_ Hnone].
    pose proof (proj2 (all_missing_spec _) Hnone) as Htrue. congruence.
Qed.

Lemma read_dtype_object {A} (cells : list (option A)) :
  (∃ x, Some x ∈ cells) → read_dtype cells = object.
Proof.
  intros [x Hx]. destruct (read_dtype cells) eqn:Hdt; [done|].
  apply read_dtype_float64 in Hdt as [_ Hnone].
  by specialize (Hnone _ Hx).
Qed.

Lemma str_accessor_raise dt e :
  str_accessor dt = Raise e → e = AttributeError ∧ dt = float64.
Proof. destruct dt; [done|]. by intros [= <-]. Qed.

Lemma coerce_merge_keys_same dt lk rk : coerce_merge_keys dt dt lk rk = Ok ().
Proof. unfold coerce_merge_keys. by destruct dt, lk, rk. Qed.

Lemma coerce_merge_keys_raise ldt rdt lk rk e :
  coerce_merge_keys ldt rdt lk rk = Raise e →
  e = ValueError ∧ (ldt = float64 ∨ rdt = float64).
Proof.
  unfold coerce_merge_keys. intros Hraise.
  assert ((if same_dtype ldt rdt then Ok ()
           else if xorb (string_like (infer_dtype ldt lk))
                        (string_like (infer_dtype rdt rk))
                then Raise ValueError else Ok ()) = Raise e) as Hcheck.
  { destruct lk, rk; done. }
  clear Hraise. destruct (same_dtype ldt rdt) eqn:Hsame; [done|].
  destruct (xorb _ _); [|done]. injection Hcheck as <-. split; [done|].
  destruct ldt, rdt; try done; auto.
Qed.

(** The causes of an exception before the lookup is used. *)
Lemma typing_raise (d : datasets) e :
  typing d = Raise e →
  (e = ValueError
   ∧ (read_dtype (b_tconst <$> title_basics d) = float64
      ∨ read_dtype (r_tconst <$> title_ratings d) = float64
      ∨ read_dtype (c_tconst <$> title_crew d) = float64))
  ∨ (e = AttributeError
     ∧ (read_dtype (c_directors <$> title_crew d) = float64
        ∨ read_dtype (c_writers <$> title_crew d) = float64)).
Proof.
  unfold typing, merge_tables, collect_ids_typed. cbv zeta.
  destruct (coerce_merge_keys _ _ (b_tconst <$> title_basics d) _)
    as [|e1] eqn:H1; cbv beta iota.
  2:{ intros [= ->]. apply coerce_merge_keys_raise in H1 as [-> Hdt].
      left. split; [done|]. tauto. }
  destruct (coerce_merge_keys _ _ _ (c_tconst <$> title_crew d))
    as [|e2] eqn:H2; cbv beta iota.
  2:{ intros [= ->]. apply coerce_merge_keys_raise in H2 as [-> Hdt].
      left. split; [done|]. tauto. }
  destruct (str_accessor (read_dtype (c_directors <$> title_crew d)))
    as [|e3] eqn:H3; cbv beta iota.
  2:{ intros [= ->]. apply str_accessor_raise in H3 as [-> Hdt].
      right. split; [done|]. tauto. }
  destruct (str_accessor (read_dtype (c_writers <$> title_crew d)))
    as [|e4] eqn:H4; cbv beta iota; [done|].
  intros [= ->]. apply str_accessor_raise in H4 as [-> Hdt].
  right. split; [done|]. tauto.
Qed.

(** Archives in which every column that the script reads as text has a
    present cell raise nothing there. *)
Lemma typing_Ok (d : datasets) :
  (∃ b, b ∈ title_basics d ∧ is_Some (b_tconst b)) →
  (∃ r, r ∈ title_ratings d ∧ is_Some (r_tconst r)) →
  (∃ c, c ∈ title_crew d ∧ is_Some (c_tconst c)) →
  (∃ c, c ∈ title_crew d ∧ is_Some (c_directors c)) →
  (∃ c, c ∈ title_crew d ∧ is_Some (c_writers c)) →
  typing d = Ok ().
Proof.
  intros (b & Hb & [kb Hkb]) (r & Hr & [kr Hkr]) (c & Hc & [kc Hkc])
    (cd & Hcd & [kd Hkd]) (cw & Hcw & [kw Hkw]).
  assert (read_dtype (b_tconst <$> title_basics d) = object) as Hbt.
  { apply read_dtype_object. exists kb. rewrite <- Hkb.
    by apply list_elem_of_fmap_2. }
  assert (read_dtype (r_tconst <$> title_ratings d) = object) as Hrt.
  { apply read_dtype_object. exists kr. rewrite <- Hkr.
    by apply list_elem_of_fmap_2. }
  assert (read_dtype (c_tconst <$> title_crew d) = object) as Hct.
  { apply read_dtype_object. exists kc. rewrite <- Hkc.
    by apply list_elem_of_fmap_2. }
  assert (read_dtype (c_directors <$> title_crew d) = object) as Hdt.
  { apply read_dtype_object. exists kd. rewrite <- Hkd.
    by apply list_elem_of_fmap_2. }
  assert (read_dtype (c_writers <$> title_crew d) = object) as Hwt.
  { apply read_dtype_object. exists kw. rewrite <- Hkw.
    by apply list_elem_of_fmap_2. }
  unfold typing, merge_tables, collect_ids_typed. cbv zeta.
  rewrite Hbt, Hrt, Hct, Hdt, Hwt, !coerce_merge_keys_same. done.
Qed.

Lemma typing_merge (d : datasets) :
  typing d = Ok () →
  merge_tables (title_basics d) (title_ratings d) (title_crew d)
  = Ok (merge_titles (title_basics d) (title_ratings d) (title_crew d))
  ∧ collect_ids_typed (title_crew d) (filtered_titles d)
    = Ok (collect_ids (filtered_titles d)).
Proof.
  unfold typing, filtered_titles.
  destruct (merge_tables _ _ _) as [df|e] eqn:Hm; [|done].
  pose proof (merge_tables_Ok _ _ _ _ Hm) as ->.
  destruct (collect_ids_typed _ _) as [ids|e] eqn:Hids; [|done].
  pose proof (collect_ids_typed_Ok _ _ _ Hids) as ->. done.
Qed.

(** *** The table *)

Lemma build_table_typing `{PyHash} (d : datasets) e :
  typing d = Raise e → build_table d = Raise e.
Proof.
  unfold typing, build_table.
  destruct (merge_tables _ _ _) as [df|e1]; cbv beta iota zeta;
    [|by intros [= ->]].
  destruct (collect_ids_typed _ _) as [ids|e2]; cbv beta iota;
    [done|by intros [= ->]].
Qed.

Lemma build_table_unique `{PyHash} (d : datasets) :
  typing d = Ok () →
  NoDup (name_map_of d).*1 →
  build_table d
  = Ok ((λ lt, rewritten (list_to_map (name_map_of d)) lt.2)
          <$> filtered_titles d).
Proof.
  intros [Hmerge Hids]%typing_merge Hm. unfold build_table.
  rewrite Hmerge. fold (filtered_titles d). rewrite Hids.
  rewrite ids_to_names_unique;
    [|rewrite labels_column; apply NoDup_filtered_titles|done].
  unfold set_directors. rewrite assign_column.
  set (df' := _ <$> filtered_titles d).
  assert (labels df' = labels (filtered_titles d)) as Hlabels.
  { unfold df', labels. rewrite <- list_fmap_compose. by apply list_fmap_ext. }
  rewrite ids_to_names_unique;
    [|rewrite labels_column, Hlabels; apply NoDup_filtered_titles|done].
  unfold set_writers. rewrite assign_column. unfold df'.
  by rewrite <- !list_fmap_compose.
Qed.

Lemma Ok_inj {A} (x y : A) : Ok x = Ok y → x = y.
Proof. intros Hxy. by injection Hxy. Qed.

Lemma build_table_repeated `{PyHash} (d : datasets) :
  typing d = Ok () →
  ¬ NoDup (name_map_of d).*1 → build_table d = Raise InvalidIndexError.
Proof.
  intros [Hmerge Hids]%typing_merge Hm. unfold build_table.
  rewrite Hmerge. fold (filtered_titles d). rewrite Hids.
  unfold ids_to_names. by rewrite series_map_repeated.
Qed.

(** A run that writes a table, and the three ways in which a run ends
    with an exception. *)
Lemma build_table_rows `{PyHash} (d : datasets) (table : list movie) :
  build_table d = Ok table →
  typing d = Ok ()
  ∧ NoDup (name_map_of d).*1
  ∧ table = (λ lt, rewritten (list_to_map (name_map_of d)) lt.2)
              <$> filtered_titles d.
Proof.
  intros Hok. destruct (typing d) as [[]|e] eqn:Htyping.
  2:{ rewrite (build_table_typing d e) in Hok by done. discriminate Hok. }
  split; [done|].
  destruct (decide (NoDup (name_map_of d).*1)) as [Hnd|Hnd].
  - split; [done|]. rewrite build_table_unique in Hok by done.
    apply Ok_inj in Hok. by symmetry.
  - rewrite build_table_repeated in Hok by done. discriminate Hok.
Qed.

Lemma build_table_raises `{PyHash} (d : datasets) (e : exn) :
  build_table d = Raise e →
  typing d = Raise e
  ∨ (typing d = Ok () ∧ e = InvalidIndexError ∧ ¬ NoDup (name_map_of d).*1).
Proof.
  intros Hraise. destruct (typing d) as [[]|e'] eqn:Htyping.
  2:{ rewrite (build_table_typing d e') in Hraise by done.
      left. by injection Hraise as ->. }
  right. split; [done|].
  destruct (decide (NoDup (name_map_of d).*1)) as [Hnd|Hnd].
  - rewrite build_table_unique in Hraise by done. discriminate Hraise.
  - rewrite build_table_repeated in Hraise by done.
    by injection Hraise as <-.
Qed.


(** Two titles of which one passes the filter, with two directors of the
    same name. *)
Example build_table_two_titles :
  @build_table Sample.seed Sample.two_titles
  = Ok [ {| m_primaryTitle := Some "One"; m_originalTitle := Some "One";
            m_startYear := Some 1999%Z; m_runtimeMinutes := Some 100%Z;
            m_genres := Some "Drama"; m_averageRating := Some 7.5%float;
            m_numVotes := Some 2000%Z;
            m_directors := Some "Ann (1),Ann (2)"; m_writers := None |} ].
Proof. vm_compute. reflexivity. Qed.

(** With an identifier on two rows of a chunk, the rewrite refuses the
    lookup and the build ends with the exception. *)
Example build_table_repeated_identifier :
  @build_table Sample.seed sample_repeated = Raise InvalidIndexError.
Proof. vm_compute. reflexivity. Qed.

(** A crew table in which no row names a writer ends the build at the
    collection of identifiers; title identifiers that are all missing in
    one archive and present in another end it at the merge. *)
Example build_table_no_writers :
  @build_table Sample.seed sample_no_writers = Raise AttributeError
  ∧ @build_table Sample.seed sample_no_keys = Raise ValueError.
Proof. split; vm_compute; reflexivity. Qed.

(** The written rating is the single precision float next to the rating
    served. *)
Example build_table_rating :
  m_averageRating <$> default [] (match @build_table Sample.seed sample_rating with
                                  | Ok table => Some table
                                  | Raise _ => None
                                  end)
  = [Some 0x1.c7e6b8p+2%float].
Proof. vm_compute. reflexivity. Qed.

(** ** Tokens with surrounding whitespace *)

Lemma omap_filter_None {A B} `{EqDecision A} (f : A → option B) (x : A)
    (l : list A) :
  f x = None → omap f (filter (λ y, y ≠ x) l) = omap f l.
Proof.
  intros Hx. induction l as [|y l IH]; [done|].
  rewrite filter_cons. destruct (decide (y ≠ x)) as [Hne|Heq].
  - rewrite !omap_cons, IH. done.
  - apply dec_stable in Heq. subst. by rewrite omap_cons, Hx.
Qed.

(** C9. The identifiers collected for resolution are stripped, the rewrite
    looks tokens up as they stand: in every run, a token with surrounding
    whitespace has no entry in the lookup, so it adds nothing to any
    rewritten cell of the written table, whether or not its stripped form
    was collected and resolved. *)
Theorem padded_tokens_are_dropped `{PyHash} (d : datasets) (token : string) :
  Str.strip token ≠ token →
  let m : gmap string string := list_to_map (name_map_of d) in
  (∀ i, i ∈ collect_ids (filtered_titles d) → Str.strip i = i)
  ∧ (∀ i, i ∈ (name_map_of d).*1 → i ∈ collect_ids (filtered_titles d))
  ∧ (token ∉ (name_map_of d).*1)
  ∧ m !! token = None
  ∧ (∀ s, cell_names m (Some s)
          = omap (λ k, m !! k)
              (filter (λ t, t ≠ token) (Str.split Str.comma s)))
  ∧ (∀ table, build_table d = Ok table →
       table = (λ lt, rewritten m lt.2) <$> filtered_titles d).
Proof.
  intros Hpad m.
  assert (token ∉ (name_map_of d).*1) as Hkey.
  { intros Hin. apply Hpad. apply (collect_ids_stripped (filtered_titles d)).
    by apply name_map_of_keys. }
  assert (m !! token = None) as Hnone.
  { unfold m. by apply not_elem_of_list_to_map_1. }
  split; [apply collect_ids_stripped|]. split; [apply name_map_of_keys|].
  split; [done|]. split; [done|]. split.
  - intros s. unfold cell_names. by rewrite omap_filter_None.
  - intros table Hok. by apply build_table_rows in Hok as (_ & _ & ->).
Qed.

Lemma padded_tokens_are_dropped_witness :
  let m : gmap string string :=
    list_to_map (@name_map_of Sample.seed Sample.padded) in
"n2" ∈ collect_ids (filtered_titles Sample.padded)
  ∧ m !! "n2" = Some "Bob"
  ∧ m !! " n2" = None
  ∧ m_directors <$> default [] (match @build_table Sample.seed Sample.padded with
                                | Ok table => Some table
                                | Raise _ => None
                                end)
    = [Some "Ann"].
Proof.
  intros m.
  destruct (@padded_tokens_are_dropped Sample.seed Sample.padded " n2")
    as (_ & _ & _ & Hnone & _).
  - apply (bool_decide_unpack _). vm_compute. reflexivity.
  - split; [|split; [|split]].
    + apply (bool_decide_unpack _). vm_compute. reflexivity.
    + vm_compute. reflexivity.
    + exact Hnone.
    + vm_compute. reflexivity.
Defined.

(** ** Independence of the hash seed *)

Lemma isin_hash (h1 h2 : PyHash) x (values : gset string) :
  @isin h1 x values = @isin h2 x values.
Proof.
  unfold isin. apply bool_decide_ext.
  by rewrite (@set_iter_perm h1), (@set_iter_perm h2).
Qed.

Lemma scan_chunk_hash (h1 h2 : PyHash) idx c st :
  @scan_chunk h1 idx c st = @scan_chunk h2 idx c st.
Proof.
  unfold scan_chunk.
  assert (filter (λ p, @nconst_isin h1 (remaining_ids st) p = true)
            (dropna_people c)
          = filter (λ p, @nconst_isin h2 (remaining_ids st) p = true)
              (dropna_people c)) as ->; [|done].
  apply list_filter_iff. intros p. unfold nconst_isin.
  destruct (nconst p); [|done]. by rewrite (isin_hash h1 h2).
Qed.

Lemma scan_hash (h1 h2 : PyHash) reader : ∀ idx st,
  @scan h1 reader idx st = @scan h2 reader idx st.
Proof.
  induction reader as [|c reader IH]; intros idx st; [done|].
  rewrite !scan_cons. cbv zeta. rewrite (scan_chunk_hash h1 h2).
  destruct (scan_chunk idx c _) as [st' stop]. simpl.
  destruct stop; [done|]. apply IH.
Qed.

Lemma scan_people_hash (h1 h2 : PyHash) wanted reader :
  @scan_people h1 wanted reader = @scan_people h2 wanted reader.
Proof. unfold scan_people. by rewrite (scan_hash h1 h2). Qed.

Lemma name_map_of_hash (h1 h2 : PyHash) d :
  @name_map_of h1 d = @name_map_of h2 d.
Proof.
  unfold name_map_of, relevant_people_of.
  by rewrite (scan_people_hash h1 h2).
Qed.

Lemma build_table_hash (h1 h2 : PyHash) d :
  @build_table h1 d = @build_table h2 d.
Proof. unfold build_table. by rewrite (name_map_of_hash h1 h2). Qed.

(** ** The cache *)

Lemma pipeline_runs_app w names :
  length (filter (λ name, name = "title.basics") (downloads w ++ names))
  = pipeline_runs w + length (filter (λ name, name = "title.basics") names).
Proof. unfold pipeline_runs. by rewrite filter_app, length_app. Qed.

Section cache.
Context `{PyHash}.

(** A call that finds the file and is not forced. *)
Lemma build_cached v w :
  is_Some (csv_file w) →
  ∃ w', build_imdb_csv false v w = (Ok CSV_PATH, w')
        ∧ remote w' = remote w ∧ csv_file w' = csv_file w
        ∧ downloads w' = downloads w ∧ chunks_read w' = chunks_read w.
Proof.
  intros [table Hfile]. pose proof (run_build_imdb_csv false v w) as Hrun.
  cbv zeta in Hrun. rewrite Hfile in Hrun. cbn [notna negb andb] in Hrun.
  eexists. split; [exact Hrun|]. rewrite Hfile.
  destruct (decide (verbose w ≠ v));
    cbn [effects with_verbose remote csv_file downloads chunks_read];
    by rewrite ?app_nil_r, ?Nat.add_0_r.
Qed.

Lemma pipeline_runs_once (d : datasets) :
  length (filter (λ name, name = "title.basics") (pipeline_downloads d)) = 1.
Proof.
  unfold pipeline_downloads. destruct (typing d); [|done].
  by destruct (decide (_ = ∅)).
Qed.

(** A call that runs the pipeline. *)
Lemma build_pipeline force v w :
  notna (csv_file w) && negb force = false →
  ∃ w', build_imdb_csv force v w
        = (match build_table (remote w) with
           | Ok _ => Ok CSV_PATH
           | Raise e => Raise e
           end, w')
        ∧ remote w' = remote w
        ∧ csv_file w' = match build_table (remote w) with
                        | Ok table => Some table
                        | Raise _ => csv_file w
                        end
        ∧ pipeline_runs w' = pipeline_runs w + 1.
Proof.
  intros Hrun'. eexists. split; [by apply run_pipeline|].
  assert (downloads (if decide (verbose w ≠ v) then with_verbose v w else w)
          = downloads w) as Hd by (by destruct (decide (verbose w ≠ v))).
  assert (remote (if decide (verbose w ≠ v) then with_verbose v w else w)
          = remote w) as Hr by (by destruct (decide (verbose w ≠ v))).
  rewrite remote_effects, csv_file_effects.
  split; [exact Hr|]. split; [reflexivity|].
  unfold pipeline_runs at 1, effects. cbn [downloads].
  by rewrite Hd, pipeline_runs_app, pipeline_runs_once.
Qed.

(** C8. A call that finds the CSV file and is not forced returns its path
    and leaves the file, the downloads and the chunks read as they were: the
    pipeline does not run.  Hence, starting without the file, two unforced
    calls run the pipeline exactly once when the first one succeeds: the
    first writes the file, the second returns the same path and fetches
    nothing. *)
Theorem build_twice_runs_pipeline_once :
  (∀ w v, is_Some (csv_file w) →
     let r := build_imdb_csv false v w in
     r.1 = Ok CSV_PATH
     ∧ csv_file r.2 = csv_file w
     ∧ downloads r.2 = downloads w
     ∧ chunks_read r.2 = chunks_read w
     ∧ pipeline_runs r.2 = pipeline_runs w)
  ∧ (∀ w v1 v2 p, csv_file w = None →
       (build_imdb_csv false v1 w).1 = Ok p →
       let w1 := (build_imdb_csv false v1 w).2 in
       let r2 := build_imdb_csv false v2 w1 in
       p = CSV_PATH
       ∧ is_Some (csv_file w1)
       ∧ pipeline_runs w1 = pipeline_runs w + 1
       ∧ r2.1 = Ok p
       ∧ csv_file r2.2 = csv_file w1
       ∧ downloads r2.2 = downloads w1
       ∧ chunks_read r2.2 = chunks_read w1
       ∧ pipeline_runs r2.2 = pipeline_runs w + 1).
Proof.
  assert (∀ w v, is_Some (csv_file w) →
     let r := build_imdb_csv false v w in
     r.1 = Ok CSV_PATH
     ∧ csv_file r.2 = csv_file w
     ∧ downloads r.2 = downloads w
     ∧ chunks_read r.2 = chunks_read w
     ∧ pipeline_runs r.2 = pipeline_runs w) as Hcached.
  { intros w v Hfile r.
    destruct (build_cached v w Hfile) as (w' & Hrun & _ & Hcsv & Hd & Hn).
    unfold r. rewrite Hrun. cbn [fst snd]. unfold pipeline_runs. rewrite Hd.
    repeat split; assumption. }
  split; [exact Hcached|].
  intros w v1 v2 p Hnone Hok w1 r2.
  destruct (build_pipeline false v1 w) as (w' & Hrun & _ & Hcsv & Hruns).
  { by rewrite Hnone. }
  assert (w1 = w') as Hw1 by (unfold w1; rewrite Hrun; reflexivity).
  rewrite Hrun in Hok. cbn [fst] in Hok.
  destruct (build_table (remote w)) as [table|e]; [|discriminate Hok].
  apply Ok_inj in Hok. subst p.
  assert (is_Some (csv_file w1)) as Hfile by (rewrite Hw1, Hcsv; by eexists).
  destruct (Hcached w1 v2 Hfile) as (Hr & Hc & Hd & Hn & Hp).
  fold r2 in Hr, Hc, Hd, Hn, Hp. clearbody r2. clearbody w1. subst w1.
  rewrite Hp, Hruns. repeat split; assumption.
Qed.

End cache.

Lemma build_twice_runs_pipeline_once_witness :
  let w := Sample.fresh Sample.two_titles in
  let w1 := (@build_imdb_csv Sample.seed false false w).2 in
  let r2 := @build_imdb_csv Sample.seed false true w1 in
  pipeline_runs r2.2 = 1
  ∧ r2.1 = Ok CSV_PATH
  ∧ m_directors <$> default [] (csv_file r2.2) = [Some "Ann (1),Ann (2)"]
  ∧ downloads r2.2
    = ["title.basics"; "title.ratings"; "title.crew"; "name.basics"].
Proof.
  intros w w1 r2.
  destruct (@build_twice_runs_pipeline_once Sample.seed) as [_ Htwice].
  destruct (Htwice w false true CSV_PATH) as (_ & _ & _ & Hr & _ & _ & _ & Hp).
  - reflexivity.
  - vm_compute. reflexivity.
  - split; [exact Hp|]. split; [exact Hr|]. split; vm_compute; reflexivity.
Defined.

(** ** Determinism *)

(** C10. A forced build is a function of the records served: whatever the
    hash seeds of the two processes, the verbosity and what the two machines
    had cached, printed or fetched before, two forced builds from the same
    four datasets end alike, and when they succeed they write the same
    table, made with the same lookup of disambiguated names. *)
Theorem forced_build_is_deterministic (h1 h2 : PyHash) (w1 w2 : world)
    (v1 v2 : bool) :
  remote w1 = remote w2 →
  let r1 := @build_imdb_csv h1 true v1 w1 in
  let r2 := @build_imdb_csv h2 true v2 w2 in
  r1.1 = r2.1
  ∧ @name_map_of h1 (remote w1) = @name_map_of h2 (remote w2)
  ∧ @build_table h1 (remote w1) = @build_table h2 (remote w2)
  ∧ (∀ table, @build_table h1 (remote w1) = Ok table →
       r1.1 = Ok CSV_PATH
       ∧ csv_file r1.2 = Some table ∧ csv_file r2.2 = Some table)
  ∧ (∀ e, @build_table h1 (remote w1) = Raise e →
       r1.1 = Raise e
       ∧ csv_file r1.2 = csv_file w1 ∧ csv_file r2.2 = csv_file w2).
Proof.
  intros Hremote r1 r2.
  destruct (@build_pipeline h1 true v1 w1) as (w1' & Hrun1 & _ & Hcsv1 & _).
  { apply andb_false_r. }
  destruct (@build_pipeline h2 true v2 w2) as (w2' & Hrun2 & _ & Hcsv2 & _).
  { apply andb_false_r. }
  assert (@build_table h2 (remote w2) = @build_table h1 (remote w1)) as Htable.
  { rewrite <- Hremote. apply build_table_hash. }
  rewrite Htable in Hrun2, Hcsv2.
  unfold r1, r2. rewrite Hrun1, Hrun2. cbn [fst snd]. rewrite Hcsv1, Hcsv2.
  split; [reflexivity|]. split.
  { rewrite <- Hremote. apply name_map_of_hash. }
  split; [by rewrite Htable|].
  destruct (@build_table h1 (remote w1)) as [table|e].
  - split; [|intros e He; discriminate He].
    intros table' Hok. apply Ok_inj in Hok. subst table'. done.
  - split; [intros table Hok; discriminate Hok|].
    intros e' [= ->]. done.
Qed.

Lemma forced_build_is_deterministic_witness :
  let w1 := Sample.fresh Sample.two_titles in
  let w2 := {| remote := Sample.two_titles; csv_file := Some [];
               verbose := true; console := [UsingCached];
               downloads := ["title.basics"]; chunks_read := 7 |} in
  (@build_imdb_csv Sample.seed true false w1).1
  = (@build_imdb_csv Sample.seed' true true w2).1
  ∧ m_directors <$> default [] (csv_file (@build_imdb_csv Sample.seed' true true w2).2)
    = [Some "Ann (1),Ann (2)"].
Proof.
  intros w1 w2.
  destruct (forced_build_is_deterministic Sample.seed Sample.seed' w1 w2
              false true) as [Hsame _].
  - reflexivity.
  - split; [exact Hsame|]. vm_compute. reflexivity.
Defined.

Lemma load_relevant_people_stops_early_witness :
  let st := (@scan_people Sample.seed {["A"; "C"]} Sample.reader).2 in
  length (pulls st) = 2
  ∧ Forall (λ R : gset string, R ≠ ∅) (pulls st)
  ∧ remaining_ids st = {["A"; "C"]} ∖ valid_ids (take 2 Sample.reader).
Proof.
  intros st.
  assert (length (pulls st) = 2) as Hn by (vm_compute; reflexivity).
  destruct (@load_relevant_people_stops_early Sample.seed {["A"; "C"]}
              Sample.reader (Sample.fresh Sample.two_titles))
    as (_ & _ & _ & _ & Hall & _ & _ & Hleft & _).
  - apply (bool_decide_unpack _). vm_compute. reflexivity.
  - split; [exact Hn|]. split; [exact Hall|].
    fold st in Hleft. rewrite Hn in Hleft. exact Hleft.
Defined.

(** ** More on the merges *)

Lemma filter_key_unique {A K} `{EqDecision K} (key : A → K) (k : K)
    (l : list A) :
  NoDup (key <$> l) → length (filter (λ x, key x = k) l) ≤ 1.
Proof.
  induction l as [|x l IH]; [simpl; lia|].
  rewrite fmap_cons, NoDup_cons. intros [Hx Hl]. rewrite filter_cons.
  destruct (decide (key x = k)) as [Hk|Hk]; [|by apply IH].
  assert (filter (λ x, key x = k) l = []) as ->; [|simpl; lia].
  destruct (filter (λ x, key x = k) l) as [|y ys] eqn:Hf; [done|].
  assert (y ∈ filter (λ x, key x = k) l) as Hy by (rewrite Hf; left).
  apply list_elem_of_filter in Hy as [Heq Hy]. destruct Hx.
  rewrite Hk, <- Heq. apply list_elem_of_fmap. by exists y.
Qed.

Lemma merge_left_cons br df crew :
  merge_left (br :: df) crew
  = match filter (λ c, c_tconst c = b_tconst br.1) crew with
    | [] => [join_row br None None]
    | cs => (λ c, join_row br (c_directors c) (c_writers c)) <$> cs
    end ++ merge_left df crew.
Proof. done. Qed.

Lemma merge_left_app df1 df2 crew :
  merge_left (df1 ++ df2) crew = merge_left df1 crew ++ merge_left df2 crew.
Proof. unfold merge_left. apply bind_app. Qed.

Lemma merge_inner_cons b basics ratings :
  merge_inner (b :: basics) ratings
  = ((λ r, (b, r)) <$> filter (λ r, r_tconst r = b_tconst b) ratings)
    ++ merge_inner basics ratings.
Proof.
  unfold merge_inner. rewrite bind_cons. f_equal.
Qed.

Lemma tconst_join_row br d w : tconst (join_row br d w) = b_tconst br.1.
Proof. by destruct br. Qed.

(** The rows that one row of title.basics contributes. *)
Lemma merge_one_title b ratings crew :
  NoDup (r_tconst <$> ratings) → NoDup (c_tconst <$> crew) →
  tconst <$> merge_left
               ((λ r, (b, r)) <$> filter (λ r, r_tconst r = b_tconst b) ratings)
               crew
  = if decide (b_tconst b ∈ r_tconst <$> ratings) then [b_tconst b] else [].
Proof.
  intros Hr Hc.
  pose proof (filter_key_unique r_tconst (b_tconst b) ratings Hr) as Hlen.
  destruct (filter _ ratings) as [|r [|r' rs]] eqn:Hf; simpl in Hlen; [| |lia].
  - rewrite decide_False; [done|]. intros Hin.
    apply list_elem_of_fmap in Hin as (r & Heq & Hin).
    assert (r ∈ filter (λ r, r_tconst r = b_tconst b) ratings) as Hin'
      by by apply list_elem_of_filter.
    rewrite Hf in Hin'. by apply elem_of_nil in Hin'.
  - rewrite decide_True.
    2:{ assert (r ∈ filter (λ r, r_tconst r = b_tconst b) ratings) as Hin
          by (rewrite Hf; left).
        apply list_elem_of_filter in Hin as [<- Hin].
        apply list_elem_of_fmap. by exists r. }
    rewrite fmap_cons, fmap_nil, merge_left_cons. cbn [merge_left fst].
    rewrite app_nil_r.
    pose proof (filter_key_unique c_tconst (b_tconst b) crew Hc) as Hlen'.
    destruct (filter _ crew) as [|c [|c' cs]]; simpl in Hlen'; [done|done|lia].
Qed.

Lemma merge_left_length df crew : length df ≤ length (merge_left df crew).
Proof.
  induction df as [|br df IH]; [done|]. rewrite merge_left_cons, length_app.
  destruct (filter _ crew); simpl in *; lia.
Qed.

(** X1. With at most one ratings row and at most one crew row per title
    identifier, a row of title.basics yields one merged row when it has a
    rating and none otherwise: the merged frame lists the rated titles in
    the order of title.basics, it has no more rows than title.basics, and no
    title identifier twice when title.basics has none twice.  Whatever the
    crew table, the left join loses no row of the inner join. *)
Theorem merge_titles_one_row_per_title
    (basics : list basics_row) (ratings : list ratings_row)
    (crew : list crew_row) :
  NoDup (r_tconst <$> ratings) → NoDup (c_tconst <$> crew) →
  let joined := (merge_titles basics ratings crew).*2 in
  tconst <$> joined
  = filter (λ k, k ∈ r_tconst <$> ratings) (b_tconst <$> basics)
  ∧ length joined ≤ length basics
  ∧ (NoDup (b_tconst <$> basics) → NoDup (tconst <$> joined))
  ∧ length (merge_inner basics ratings) ≤ length joined.
Proof.
  intros Hr Hc joined.
  assert (tconst <$> joined
          = filter (λ k, k ∈ r_tconst <$> ratings) (b_tconst <$> basics))
    as Hkeys.
  { unfold joined, merge_titles. rewrite rows_range_index.
    induction basics as [|b basics IH]; [done|].
    rewrite merge_inner_cons, merge_left_app, fmap_app, IH.
    rewrite merge_one_title by done. rewrite fmap_cons, filter_cons.
    by destruct (decide (b_tconst b ∈ r_tconst <$> ratings)). }
  split; [done|]. split; [|split].
  - rewrite <- (length_fmap tconst joined), Hkeys, <- (length_fmap b_tconst basics).
    apply length_filter.
  - intros Hb. rewrite Hkeys. by apply NoDup_filter.
  - unfold joined, merge_titles. rewrite rows_range_index.
    apply merge_left_length.
Qed.

Lemma merge_titles_one_row_per_title_witness :
  tconst <$> (merge_titles (title_basics Sample.two_titles)
                (title_ratings Sample.two_titles)
                (title_crew Sample.two_titles)).*2
  = [Some "tt1"; Some "tt2"].
Proof.
  destruct (merge_titles_one_row_per_title (title_basics Sample.two_titles)
              (title_ratings Sample.two_titles)
              (title_crew Sample.two_titles)) as [Hkeys _].
  - apply (bool_decide_unpack _). vm_compute. reflexivity.
  - apply (bool_decide_unpack _). vm_compute. reflexivity.
  - rewrite Hkeys. vm_compute. reflexivity.
Defined.

(** ** The resolver on a file *)

Lemma mjoin_cons {A} (l : list A) (ls : list (list A)) :
  mjoin (l :: ls) = l ++ mjoin ls.
Proof. done. Qed.

Lemma read_chunks_go_join {A} (size : N) (rows : list A) : ∀ room cur,
  mjoin (read_chunks_go size room cur rows) = reverse cur ++ rows.
Proof.
  induction rows as [|r rows IH]; intros room cur.
  - simpl. destruct cur; [done|]. simpl. by rewrite !app_nil_r.
  - cbn [read_chunks_go]. destruct (room <=? 1)%N.
    + rewrite mjoin_cons, IH, reverse_cons, reverse_nil.
      by rewrite <- (assoc_L app).
    + rewrite IH, reverse_cons, <- (assoc_L app). done.
Qed.

Lemma read_chunks_join {A} (size : N) (rows : list A) :
  mjoin (read_chunks size rows) = rows.
Proof. unfold read_chunks. by rewrite read_chunks_go_join. Qed.

Lemma dropna_people_app c1 c2 :
  dropna_people (c1 ++ c2) = dropna_people c1 ++ dropna_people c2.
Proof. unfold dropna_people. apply filter_app. Qed.

Lemma dropna_people_join (reader : list chunk) :
  mjoin (dropna_people <$> reader) = dropna_people (mjoin reader).
Proof.
  induction reader as [|c reader IH]; [done|].
  by rewrite fmap_cons, !mjoin_cons, dropna_people_app, IH.
Qed.

Lemma valid_ids_read_chunks (size : N) (rows : list person) :
  valid_ids (read_chunks size rows) = nconst_set (dropna_people rows).
Proof. unfold valid_ids. by rewrite dropna_people_join, read_chunks_join. Qed.

Lemma size_nconst_set_le (rows : list person) :
  size (nconst_set rows) ≤ length rows.
Proof.
  unfold nconst_set. induction rows as [|p rows IH].
  { change (size (∅ : gset string) ≤ 0). by rewrite size_empty. }
  rewrite omap_cons. destruct (nconst p) as [i|]; [|simpl; lia].
  rewrite list_to_set_cons, size_union_alt, size_singleton.
  assert (size (list_to_set (omap nconst rows) ∖ {[i]} : gset string)
          ≤ size (list_to_set (omap nconst rows) : gset string)) as Hle.
  { apply subseteq_size. intros x Hx. by apply elem_of_difference in Hx as [? _]. }
  simpl. lia.
Qed.

Section resolver_file.
Context `{PyHash}.

Lemma scan_sublist reader : ∀ idx st,
  ∃ rows, mjoin (frames (scan reader idx st)) = mjoin (frames st) ++ rows
          ∧ rows `sublist_of` mjoin (dropna_people <$> reader).
Proof.
  induction reader as [|c reader IH]; intros idx st.
  - exists []. by rewrite app_nil_r.
  - rewrite scan_cons. destruct (scan_turn idx c st) as (Hf & _).
    cbv zeta in *. destruct (scan_chunk idx c _) as [st2 stop].
    cbn [fst snd] in *. rewrite fmap_cons, mjoin_cons.
    destruct stop.
    + eexists. split; [exact Hf|].
      apply sublist_inserts_r, sublist_filter.
    + destruct (IH (S idx) st2) as (rows & Hrows & Hsub).
      eexists. split.
      * rewrite Hrows, Hf, <- (assoc_L app). done.
      * apply sublist_app; [apply sublist_filter|done].
Qed.

Lemma scan_first_chunk reader : ∀ idx st p,
  p ∈ mjoin (frames (scan reader idx st)) →
  p ∈ mjoin (frames st)
  ∨ ∃ k c i, reader !! k = Some c ∧ p ∈ dropna_people c
             ∧ nconst p = Some i ∧ i ∈ remaining_ids st
             ∧ i ∉ valid_ids (take k reader).
Proof.
  induction reader as [|c reader IH]; intros idx st p; [by left|].
  rewrite scan_cons. destruct (scan_turn idx c st) as (Hf & Hr & _).
  cbv zeta in *. destruct (scan_chunk idx c _) as [st2 stop].
  cbn [fst snd] in *.
  assert (∀ q, q ∈ mjoin (frames st2) →
            q ∈ mjoin (frames st)
            ∨ ∃ k c' i, (c :: reader) !! k = Some c' ∧ q ∈ dropna_people c'
                        ∧ nconst q = Some i ∧ i ∈ remaining_ids st
                        ∧ i ∉ valid_ids (take k (c :: reader))) as Hzero.
  { intros q. rewrite Hf, elem_of_app. intros [Hq|Hq]; [by left|right].
    apply list_elem_of_filter in Hq as [Hq Hin]. unfold nconst_isin in Hq.
    destruct (nconst q) as [i|] eqn:Hi; [|done]. apply isin_spec in Hq.
    exists 0, c, i. repeat (split; [done|]).
    rewrite take_0, valid_ids_nil. apply not_elem_of_empty. }
  intros Hp. destruct stop; [by apply Hzero|].
  destruct (IH (S idx) st2 p Hp) as [Hp2|(k & c' & i & Hk & Hin & Hi & Hrem & Hnew)];
    [by apply Hzero|].
  right. exists (S k), c', i. split; [done|]. split; [done|]. split; [done|].
  rewrite Hr in Hrem. apply elem_of_difference in Hrem as [Hrem Hc].
  split; [done|]. cbn [take]. rewrite valid_ids_cons, elem_of_union. tauto.
Qed.

Lemma scan_total_matched reader : ∀ idx st,
  total_matched st = length (mjoin (frames st)) →
  total_matched (scan reader idx st)
  = length (mjoin (frames (scan reader idx st))).
Proof.
  induction reader as [|c reader IH]; intros idx st Hst; [done|].
  rewrite scan_cons.
  destruct (scan_chunk_spec idx c
              {| frames := frames st; remaining_ids := remaining_ids st;
                 total_matched := total_matched st; scan_log := scan_log st;
                 pulls := pulls st ++ [remaining_ids st] |})
    as (Hf & _ & Ht & _).
  cbv zeta in *. destruct (scan_chunk idx c _) as [st2 stop].
  cbn [fst snd frames total_matched remaining_ids] in *.
  assert (total_matched st2 = length (mjoin (frames st2))) as H2
    by (rewrite Hf, Ht, length_app; lia).
  destruct stop; [done|]. by apply IH.
Qed.

(** X2. For a file read in chunks of any size, the identifiers of the rows
    that the resolver returns are the wanted identifiers that are on a row
    of the file with identifier and name, whatever the chunk size; the rows
    returned are such rows of the file, in the order of the file.  Which
    rows of a repeated identifier are returned does depend on the chunk
    size: of the seven rows of the sample file, two are returned when the
    chunks have two rows, and three when the file is one chunk. *)
Theorem scan_people_on_file (wanted : gset string) (size : N)
    (rows : list person) :
  let people := (scan_people wanted (read_chunks size rows)).1 in
  (∀ i, (∃ p, p ∈ people ∧ nconst p = Some i) ↔
       i ∈ wanted ∧ ∃ p, p ∈ rows ∧ nconst p = Some i
                          ∧ is_Some (primaryName p))
  ∧ people `sublist_of`
      filter (λ p, is_Some (nconst p) ∧ is_Some (primaryName p)) rows
  ∧ length (scan_people {["A"; "B"; "C"]}
              (read_chunks 2 (mjoin Sample.reader))).1 = 2
  ∧ length (scan_people {["A"; "B"; "C"]}
              (read_chunks 250000 (mjoin Sample.reader))).1 = 3.
Proof.
  intros people.
  assert (nconst_set people = wanted ∩ nconst_set (dropna_people rows))
    as Hkeys.
  { unfold people. destruct (scan_people_found wanted (read_chunks size rows))
      as [Hfound _]. by rewrite Hfound, valid_ids_read_chunks. }
  split; [|split; [|split]].
  - intros i. rewrite <- elem_of_nconst_set.
    rewrite Hkeys, elem_of_intersection, elem_of_nconst_set.
    split; intros [Hw (p & Hp & Hi)]; (split; [done|]).
    + apply list_elem_of_filter in Hp as [[_ Hname] Hp]. by exists p.
    + destruct Hi as [Hi Hname]. exists p. split; [|done].
      apply list_elem_of_filter. split; [|done]. split; [|done].
      rewrite Hi. by eexists.
  - unfold people. rewrite scan_people_frame.
    destruct (scan_sublist (read_chunks size rows) 1 (scan_init wanted))
      as (found & -> & Hsub).
    cbn [scan_init frames mjoin list_join app].
    by rewrite dropna_people_join, read_chunks_join in Hsub.
  - rewrite (scan_people_hash _ Sample.seed). vm_compute. reflexivity.
  - rewrite (scan_people_hash _ Sample.seed). vm_compute. reflexivity.
Qed.

(** X3. A row returned by the resolver comes from the first chunk that has
    its identifier on a row with identifier and name; the identifier is a
    wanted one. *)
Theorem scan_people_first_chunk_wins (wanted : gset string)
    (reader : list chunk) (p : person) :
  p ∈ (scan_people wanted reader).1 →
  ∃ k c i, reader !! k = Some c ∧ p ∈ c
           ∧ nconst p = Some i ∧ is_Some (primaryName p)
           ∧ i ∈ wanted ∧ i ∉ valid_ids (take k reader).
Proof.
  rewrite scan_people_frame. intros Hp.
  destruct (scan_first_chunk reader 1 (scan_init wanted) p Hp)
    as [Hnil|(k & c & i & Hk & Hin & Hi & Hw & Hnew)].
  { by apply elem_of_nil in Hnil. }
  apply list_elem_of_filter in Hin as [[_ Hname] Hin].
  by exists k, c, i.
Qed.

(** X4. The count that the scan reports ("Matched N people rows") is the
    number of rows it returns, and no fewer than the identifiers found. *)
Theorem scan_people_reports_row_count (wanted : gset string)
    (reader : list chunk) :
  let ps := scan_people wanted reader in
  total_matched ps.2 = length ps.1
  ∧ last (scan_log ps.2) = Some (true, Matched (length ps.1))
  ∧ size (wanted ∩ valid_ids reader) ≤ length ps.1.
Proof.
  intros ps.
  assert (total_matched ps.2 = length ps.1) as Hcount.
  { unfold ps, scan_people. cbn [fst snd total_matched].
    by apply scan_total_matched. }
  split; [done|]. split.
  - unfold ps at 1, scan_people. cbn [snd scan_log].
    rewrite (assoc_L app), last_snoc. do 3 f_equal. exact Hcount.
  - destruct (scan_people_found wanted reader) as [<- _].
    apply size_nconst_set_le.
Qed.

End resolver_file.

Lemma scan_people_first_chunk_wins_witness :
  ∃ k c, Sample.reader !! k = Some c
         ∧ Person (Some "A") (Some "Ann") ∈ c
         ∧ "A" ∉ valid_ids (take k Sample.reader).
Proof.
  destruct (@scan_people_first_chunk_wins Sample.seed {["A"; "B"; "C"]}
              Sample.reader (Person (Some "A") (Some "Ann")))
    as (k & c & i & Hk & Hin & Hi & _ & _ & Hnew).
  - assert ((@scan_people Sample.seed {["A"; "B"; "C"]} Sample.reader).1
            = [Person (Some "A") (Some "Ann"); Person (Some "C") (Some "Cy")])
      as -> by (vm_compute; reflexivity).
    left.
  - injection Hi as <-. by exists k, c.
Defined.

(** ** Namesakes *)

Lemma string_app_cons (c : ascii) (s t : string) :
  String c s +:+ t = String c (s +:+ t).
Proof. done. Qed.

Lemma string_length_app (s t : string) :
  String.length (s +:+ t) = String.length s + String.length t.
Proof.
  induction s as [|c s IH]; [done|].
  rewrite string_app_cons. simpl. by rewrite IH.
Qed.

Lemma string_app_inv_tail (a b c : string) : a +:+ c = b +:+ c → a = b.
Proof.
  revert b. induction a as [|x a IH]; intros [|y b] Heq.
  - done.
  - apply (f_equal String.length) in Heq.
    rewrite !string_length_app in Heq. simpl in Heq. lia.
  - apply (f_equal String.length) in Heq.
    rewrite !string_length_app in Heq. simpl in Heq. lia.
  - rewrite !string_app_cons in Heq. injection Heq as -> Heq.
    f_equal. by apply IH.
Qed.

Lemma count_name_take_lt n (names : list (option string)) i j :
  i < j → names !! j = Some (Some n) →
  count_name n (take (S i) names) < count_name n (take (S j) names).
Proof.
  intros Hij Hj. rewrite (take_S_r names j (Some n) Hj), count_name_app.
  rewrite count_name_cons, decide_True, count_name_nil by done.
  rewrite <- (take_drop (S i) (take j names)), count_name_app.
  rewrite take_take, Nat.min_l by lia. lia.
Qed.

(** X5. Two records that carry the same name leave the disambiguation with
    different names, each keeping its identifier. *)
Theorem disambiguate_people_separates_namesakes (people : list person)
    (i j : nat) (p q : person) (n : string) :
  i ≠ j → people !! i = Some p → people !! j = Some q →
  primaryName p = Some n → primaryName q = Some n →
  ∃ p' q', disambiguate_people people !! i = Some p'
           ∧ disambiguate_people people !! j = Some q'
           ∧ nconst p' = nconst p ∧ nconst q' = nconst q
           ∧ primaryName p' ≠ primaryName q'.
Proof.
  intros Hij Hi Hj Hp Hq.
  set (names := primaryName <$> people).
  assert (names !! i = Some (Some n)) as Hni
    by (unfold names; by rewrite list_lookup_fmap, Hi, <- Hp).
  assert (names !! j = Some (Some n)) as Hnj
    by (unfold names; by rewrite list_lookup_fmap, Hj, <- Hq).
  assert (count_name n (take (S i) names) ≠ count_name n (take (S j) names))
    as Hk.
  { destruct (decide (i < j)).
    - pose proof (count_name_take_lt n names i j ltac:(done) Hnj). lia.
    - pose proof (count_name_take_lt n names j i ltac:(lia) Hni). lia. }
  assert (n ∈ duplicated_names names) as Hdup.
  { apply elem_of_duplicated_names.
    assert (∀ k, names !! k = Some (Some n) →
                 0 < count_name n (take (S k) names)) as Hpos.
    { intros k Hk'. apply count_name_pos, list_elem_of_lookup. exists k.
      by rewrite lookup_take_lt by lia. }
    pose proof (Hpos i Hni). pose proof (Hpos j Hnj).
    destruct (decide (i < j)).
    - pose proof (count_name_take_lt n names i j ltac:(done) Hnj) as Hlt.
      assert (count_name n (take (S j) names) ≤ count_name n names)
        by (rewrite <- (take_drop (S j) names) at 2;
            rewrite count_name_app; lia).
      lia.
    - pose proof (count_name_take_lt n names j i ltac:(lia) Hni) as Hlt.
      assert (count_name n (take (S i) names) ≤ count_name n names)
        by (rewrite <- (take_drop (S i) names) at 2;
            rewrite count_name_app; lia).
      lia. }
  eexists _, _. split; [by apply disambiguate_people_lookup|].
  split; [by apply disambiguate_people_lookup|].
  split; [done|]. split; [done|].
  cbn [primaryName set_primaryName]. rewrite Hp, Hq. fold names.
  unfold disambiguated. rewrite !decide_False by (intros Hn; by apply Hn).
  intros [= Heq]. apply Hk.
  apply (inj (String.app n)), (inj (String.app " (")) in Heq.
  apply string_app_inv_tail in Heq.
  by apply (inj pretty) in Heq.
Qed.

Lemma disambiguate_people_separates_namesakes_witness :
  ∃ p' q',
    disambiguate_people [Sample.ann1; Sample.bob2; Sample.ann3] !! 0 = Some p'
    ∧ disambiguate_people [Sample.ann1; Sample.bob2; Sample.ann3] !! 2 = Some q'
    ∧ primaryName p' ≠ primaryName q'.
Proof.
  destruct (disambiguate_people_separates_namesakes
              [Sample.ann1; Sample.bob2; Sample.ann3] 0 2
              Sample.ann1 Sample.ann3 "Ann")
    as (p' & q' & Hp & Hq & _ & _ & Hne); [lia|reflexivity..|].
  by exists p', q'.
Defined.

(** ** The rewrite as an operation on columns *)

Lemma elem_of_explode {A} (s : frame (list A)) l x :
  (l, Some x) ∈ explode s ↔ ∃ xs, (l, xs) ∈ s ∧ x ∈ xs.
Proof.
  unfold explode. rewrite list_elem_of_bind. split.
  - intros ([l' xs] & Hin & Hs). exists xs. destruct xs as [|y ys].
    + apply list_elem_of_singleton in Hin. done.
    + apply list_elem_of_fmap in Hin as (z & [= -> ->] & Hz). done.
  - intros (xs & Hs & Hx). exists (l, xs). split; [|done].
    destruct xs as [|y ys]; [by apply elem_of_nil in Hx|].
    apply list_elem_of_fmap. by exists x.
Qed.

Lemma elem_of_column_ids (col : frame (option string)) i :
  i ∈ column_ids col ↔
    i ≠ EmptyString
    ∧ ∃ l cell token, (l, Some cell) ∈ col
                      ∧ token ∈ Str.split Str.comma cell
                      ∧ Str.strip token = i.
Proof.
  unfold column_ids. rewrite list_elem_of_filter, list_elem_of_fmap.
  apply and_iff_compat_l. split.
  - intros ([l i'] & -> & Hi). apply elem_of_dropna in Hi.
    unfold smap at 1 in Hi.
    apply list_elem_of_fmap in Hi as ([l' c] & Heq & Hin).
    destruct c as [token|]; simplify_eq/=.
    apply elem_of_explode in Hin as (tokens & Hin & Htoken).
    unfold smap in Hin.
    apply list_elem_of_fmap in Hin as ([l'' cell] & Heq & Hin).
    simplify_eq/=. apply elem_of_dropna in Hin. by exists l'', cell, token.
  - intros (l & cell & token & Hcell & Htoken & <-).
    exists (l, Str.strip token). split; [done|].
    apply elem_of_dropna. unfold smap at 1. apply list_elem_of_fmap.
    exists (l, Some token). split; [done|].
    apply elem_of_explode. exists (Str.split Str.comma cell). split; [|done].
    unfold smap. apply list_elem_of_fmap. exists (l, cell). split; [done|].
    by apply elem_of_dropna.
Qed.

(** X7. The identifiers sent to the resolver are exactly the non-empty
    stripped tokens of the comma lists in the directors and writers cells of
    the given titles. *)
Theorem collect_ids_are_stripped_tokens (df : frame title) (i : string) :
  i ∈ collect_ids df ↔
    i ≠ EmptyString
    ∧ ∃ l t cell token,
        (l, t) ∈ df
        ∧ (directors t = Some cell ∨ writers t = Some cell)
        ∧ token ∈ Str.split Str.comma cell
        ∧ Str.strip token = i.
Proof.
  unfold collect_ids. cbn [foldl].
  rewrite !elem_of_union, !elem_of_list_to_set, !elem_of_column_ids.
  unfold column, smap. split.
  - intros [[Hi|[Hne (l & cell & token & Hin & Htoken & Hstrip)]]
           |[Hne (l & cell & token & Hin & Htoken & Hstrip)]].
    + by apply not_elem_of_empty in Hi.
    + split; [done|].
      apply list_elem_of_fmap in Hin as ([l' t] & Heq & Hin). simplify_eq/=.
      exists l', t, cell, token. split; [done|]. split; [by left|done].
    + split; [done|].
      apply list_elem_of_fmap in Hin as ([l' t] & Heq & Hin). simplify_eq/=.
      exists l', t, cell, token. split; [done|]. split; [by right|done].
  - intros [Hne (l & t & cell & token & Hin & [Hd|Hw] & Htoken & Hstrip)].
    + left. right. split; [done|]. exists l, cell, token.
      split; [|done]. apply list_elem_of_fmap. exists (l, t). by rewrite <- Hd.
    + right. split; [done|]. exists l, cell, token.
      split; [|done]. apply list_elem_of_fmap. exists (l, t). by rewrite <- Hw.
Qed.

(** ** What a call of the build leaves behind *)

Lemma printed_cons v (d : bool) (m : message) (entries : list log_entry) :
  printed v ((d, m) :: entries)
  = (if d && negb v then [] else [m]) ++ printed v entries.
Proof.
  unfold printed. rewrite filter_cons. cbn [fst].
  destruct (d && negb v); by rewrite ?decide_True, ?decide_False by done.
Qed.

Lemma printed_sublist (entries : list log_entry) :
  printed false entries `sublist_of` printed true entries.
Proof.
  induction entries as [|[d m] entries IH]; [done|].
  rewrite !printed_cons. destruct d; simpl.
  - by apply sublist_cons.
  - by apply sublist_skip.
Qed.

Lemma verbose_effects w f e d n : verbose (effects w f e d n) = verbose w.
Proof. done. Qed.

Lemma console_effects w f e d n :
  console (effects w f e d n) = console w ++ printed (verbose w) e.
Proof. done. Qed.

Lemma downloads_effects w f e d n :
  downloads (effects w f e d n) = downloads w ++ d.
Proof. done. Qed.

Lemma chunks_read_effects w f e d n :
  chunks_read (effects w f e d n) = chunks_read w + n.
Proof. done. Qed.

Section leaves.
Context `{PyHash}.

(** A call of the build, whichever branch it takes. *)
Lemma run_build (force : bool) (w : world) :
  ∃ outcome file entries names n,
    (∀ v, build_imdb_csv force v w
          = (outcome,
             effects (if decide (verbose w ≠ v) then with_verbose v w else w)
               file entries names n)).
Proof.
  destruct (notna (csv_file w) && negb force) eqn:Hcached.
  - eexists _, _, _, _, _. intros v'.
    pose proof (run_build_imdb_csv force v' w) as Hrun. cbv zeta in Hrun.
    rewrite Hcached in Hrun. exact Hrun.
  - eexists _, _, _, _, _. intros v'. by apply run_pipeline.
Qed.

(** X8. The verbosity of a call decides which messages are printed and
    nothing else: the result, the CSV file, the downloads and the chunks
    read are those of the quiet call, the call leaves the verbosity flag at
    its argument, what it prints is the part of one sequence of messages
    that the verbosity lets through, and a quiet call prints a subsequence
    of what the verbose call prints. *)
Theorem verbosity_changes_console_only (force : bool) (w : world) :
  ∃ entries,
    (∀ v, let r := build_imdb_csv force v w in
          verbose r.2 = v
          ∧ console r.2 = console w ++ printed v entries
          ∧ r.1 = (build_imdb_csv force false w).1
          ∧ csv_file r.2 = csv_file (build_imdb_csv force false w).2
          ∧ downloads r.2 = downloads (build_imdb_csv force false w).2
          ∧ chunks_read r.2 = chunks_read (build_imdb_csv force false w).2)
    ∧ console (build_imdb_csv force false w).2
      `sublist_of` console (build_imdb_csv force true w).2.
Proof.
  destruct (run_build force w)
    as (outcome & file & entries & names & n & Hrun).
  assert (∀ v, verbose (if decide (verbose w ≠ v) then with_verbose v w else w)
               = v) as Hv.
  { intros v. destruct (decide (verbose w ≠ v)) as [|Heq]; [done|].
    by apply dec_stable in Heq. }
  assert (∀ v, console (if decide (verbose w ≠ v) then with_verbose v w else w)
               = console w) as Hc by (intros v; by destruct (decide _)).
  assert (∀ v, downloads (if decide (verbose w ≠ v) then with_verbose v w else w)
               = downloads w) as Hd by (intros v; by destruct (decide _)).
  assert (∀ v, chunks_read (if decide (verbose w ≠ v) then with_verbose v w else w)
               = chunks_read w) as Hn by (intros v; by destruct (decide _)).
  exists entries. split.
  - intros v r. unfold r. rewrite (Hrun v), (Hrun false). cbn [fst snd].
    rewrite verbose_effects, console_effects, !csv_file_effects,
      !downloads_effects, !chunks_read_effects, !Hv, !Hc, !Hd, !Hn.
    done.
  - rewrite (Hrun false), (Hrun true). cbn [snd].
    rewrite !console_effects, !Hv, !Hc.
    apply sublist_app; [done|]. apply printed_sublist.
Qed.

End leaves.

(** ** Console, network and file after a build *)

Lemma printed_false_details (entries : list log_entry) :
  Forall (λ e, e.1 = true) entries → printed false entries = [].
Proof.
  induction 1 as [|[d m] entries Hd _ IH]; [done|].
  simpl in Hd. subst d. by rewrite printed_cons, IH.
Qed.

Lemma printed_nil (v : bool) : printed v [] = [].
Proof. done. Qed.

Lemma rewrite_cell_empty (c : option string) : rewrite_cell ∅ c = None.
Proof.
  unfold rewrite_cell, cell_names. destruct c as [s|]; [|done].
  rewrite omap_all_None; [done|]. intros k _. apply lookup_empty.
Qed.

Lemma omap_sublist {A B} (f : A → option B) (l1 l2 : list A) :
  l1 `sublist_of` l2 → omap f l1 `sublist_of` omap f l2.
Proof.
  induction 1 as [|x l1 l2 _ IH|x l1 l2 _ IH]; [constructor|..];
    rewrite ?omap_cons; destruct (f x); try done.
  - by constructor.
  - by apply sublist_cons.
Qed.

Section after_build.
Context `{PyHash}.

Lemma scan_log_details reader : ∀ idx st,
  Forall (λ e : log_entry, e.1 = true) (scan_log st) →
  Forall (λ e : log_entry, e.1 = true) (scan_log (scan reader idx st)).
Proof.
  induction reader as [|c reader IH]; intros idx st Hst; [done|].
  rewrite scan_cons. cbv zeta. unfold scan_chunk.
  destruct (decide (idx `mod` 10 = 0));
    destruct (filter _ (dropna_people c));
    cbn [scan_log remaining_ids frames total_matched pulls];
    destruct (decide (_ = ∅)); cbn [fst snd];
    try apply IH; cbn [scan_log];
    repeat (apply Forall_app; split); try done;
    by repeat constructor.
Qed.

Lemma printed_false_scan_people wanted reader :
  printed false (scan_log (scan_people wanted reader).2)
  = if decide (remaining_ids (scan_people wanted reader).2 = ∅) then []
    else [WarnNotFound (size (remaining_ids (scan_people wanted reader).2))].
Proof.
  unfold scan_people. cbn [snd scan_log remaining_ids].
  rewrite !printed_app, printed_false_details
    by (by apply scan_log_details, Forall_nil).
  destruct (decide (_ = ∅)); by rewrite ?printed_cons.
Qed.

(** The people and the lookup of a run. *)
Lemma relevant_people_complete (d : datasets) :
  Forall (λ p, is_Some (nconst p) ∧ is_Some (primaryName p))
         (relevant_people_of d).
Proof.
  unfold relevant_people_of. cbv zeta. destruct (decide _); [done|].
  rewrite scan_people_frame. by apply scan_complete_rows.
Qed.

Lemma name_map_of_index (d : datasets) :
  (name_map_of d).*1 = omap nconst (relevant_people_of d).
Proof.
  pose proof (relevant_people_complete d) as Hrows.
  unfold name_map_of. destruct (relevant_people_of d) as [|p people] eqn:Hp;
    [done|].
  by rewrite name_map_disambiguate_keys, name_map_keys.
Qed.

Lemma relevant_people_sublist (d : datasets) :
  relevant_people_of d `sublist_of` dropna_people (name_basics d).
Proof.
  unfold relevant_people_of. cbv zeta.
  destruct (decide _); [apply sublist_nil_l|].
  rewrite scan_people_frame.
  destruct (scan_sublist (read_chunks chunksize (name_basics d)) 1
              (scan_init (collect_ids (filtered_titles d))))
    as (found & -> & Hsub).
  cbn [scan_init frames mjoin list_join app].
  by rewrite dropna_people_join, read_chunks_join in Hsub.
Qed.

Lemma name_map_of_no_ids (d : datasets) :
  collect_ids (filtered_titles d) = ∅ → name_map_of d = [].
Proof.
  intros He. unfold name_map_of, relevant_people_of.
  by rewrite He, decide_True.
Qed.

Lemma repeated_index_ids (d : datasets) :
  ¬ NoDup (name_map_of d).*1 → collect_ids (filtered_titles d) ≠ ∅.
Proof.
  intros Hnd He. apply Hnd. rewrite name_map_of_no_ids by done.
  apply NoDup_nil_2.
Qed.

Lemma unique_file_index (d : datasets) :
  NoDup (omap nconst (dropna_people (name_basics d))) →
  NoDup (name_map_of d).*1.
Proof.
  intros Hfile. rewrite name_map_of_index.
  apply (sublist_NoDup _ (omap nconst (dropna_people (name_basics d))));
    [exact Hfile|apply omap_sublist, relevant_people_sublist].
Qed.

(** The exception that ends a run tells how far the run got. *)
Lemma build_table_invalid_index (d : datasets) :
  build_table d = Raise InvalidIndexError →
  typing d = Ok () ∧ ¬ NoDup (name_map_of d).*1.
Proof.
  intros [Ht|(Ht & _ & Hnd)]%build_table_raises; [|done].
  by apply typing_raise in Ht as [[? _]|[? _]].
Qed.

Lemma build_table_early (d : datasets) (e : exn) :
  build_table d = Raise e → e ≠ InvalidIndexError → typing d = Raise e.
Proof. by intros [Ht|(_ & -> & _)]%build_table_raises Hne. Qed.

(** What a quiet run of the pipeline prints. *)
Lemma printed_false_pipeline (d : datasets) :
  printed false (pipeline_entries d)
  = [Building; Downloading "title.basics"; Downloading "title.ratings";
     Downloading "title.crew"]
    ++ match typing d with
       | Raise _ => []
       | Ok _ =>
           (if decide (collect_ids (filtered_titles d) = ∅) then []
            else Downloading "name.basics"
                   :: if decide (remaining_ids
                                   (scan_people (collect_ids (filtered_titles d))
                                      (read_chunks chunksize (name_basics d))).2
                                 = ∅)
                      then []
                      else [WarnNotFound
                              (size (remaining_ids
                                       (scan_people
                                          (collect_ids (filtered_titles d))
                                          (read_chunks chunksize
                                             (name_basics d))).2))])
           ++ match build_table d with
              | Ok _ => [WritingCsv]
              | Raise _ => []
              end
       end.
Proof.
  unfold pipeline_entries, read_entries. cbv zeta.
  destruct (typing d) as [[]|e] eqn:Ht.
  - destruct (typing_merge d Ht) as [-> ->]. unfold load_entries.
    destruct (decide (collect_ids (filtered_titles d) = ∅));
      destruct (build_table d);
      repeat (rewrite ?printed_app, ?printed_cons, ?printed_nil,
                ?printed_false_scan_people;
              cbn [andb negb app]);
      by rewrite ?app_nil_r.
  - unfold typing in Ht.
    destruct (merge_tables _ _ _) as [df|e1] eqn:Hm.
    + pose proof (merge_tables_Ok _ _ _ _ Hm) as ->.
      fold (filtered_titles d) in Ht.
      destruct (collect_ids_typed _ _); [discriminate Ht|].
      by repeat (rewrite ?printed_app, ?printed_cons, ?printed_nil;
                 cbn [andb negb app]).
    + by repeat (rewrite ?printed_app, ?printed_cons, ?printed_nil;
                 cbn [andb negb app]).
Qed.

(** X9. What a quiet call prints.  With the cached file: one line.  In a
    run of the pipeline: that it builds and one line per title archive;
    when the run gets past the collection of identifiers, the request of
    name.basics (when an identifier was collected) and the warning with the
    number of unresolved identifiers (when some remain); and the line about
    writing the CSV file only when the call returns.  A run that ends at a
    merge or at the collection prints the first four lines only. *)
Theorem quiet_build_console (force : bool) (w : world) :
  let d := remote w in
  let relevant_ids := collect_ids (filtered_titles d) in
  let missing :=
    remaining_ids (scan_people relevant_ids
                     (read_chunks chunksize (name_basics d))).2 in
  let r := build_imdb_csv force false w in
  let started := [Building; Downloading "title.basics";
                  Downloading "title.ratings"; Downloading "title.crew"] in
  let resolved :=
    if decide (relevant_ids = ∅) then []
    else Downloading "name.basics"
           :: if decide (missing = ∅) then []
              else [WarnNotFound (size missing)] in
  (notna (csv_file w) && negb force = true →
   console r.2 = console w ++ [UsingCached])
  ∧ (notna (csv_file w) && negb force = false →
     (∀ p, r.1 = Ok p →
        console r.2 = console w ++ started ++ resolved ++ [WritingCsv])
     ∧ (r.1 = Raise InvalidIndexError →
        relevant_ids ≠ ∅ ∧ console r.2 = console w ++ started ++ resolved)
     ∧ (r.1 = Raise AttributeError ∨ r.1 = Raise ValueError →
        console r.2 = console w ++ started)).
Proof.
  intros d relevant_ids missing r started resolved.
  assert (verbose (if decide (verbose w ≠ false) then with_verbose false w
                   else w) = false) as Hv.
  { destruct (decide (verbose w ≠ false)) as [|Heq]; [done|].
    by apply dec_stable in Heq. }
  assert (console (if decide (verbose w ≠ false) then with_verbose false w
                   else w) = console w) as Hc
    by (by destruct (decide (verbose w ≠ false))).
  split; intros Hcached; unfold r.
  { pose proof (run_build_imdb_csv force false w) as Hrun. cbv zeta in Hrun.
    rewrite Hcached in Hrun. rewrite Hrun. cbn [snd].
    by rewrite console_effects, Hv, Hc, printed_cons. }
  rewrite run_pipeline by done. cbn [fst snd].
  rewrite console_effects, Hv, Hc, printed_false_pipeline.
  fold d. fold relevant_ids. fold missing. fold resolved. fold started.
  destruct (build_table d) as [table|e] eqn:Hb.
  - apply build_table_rows in Hb as (-> & _). split; [done|].
    split; [done|]. by intros [?|?].
  - split; [done|]. split.
    + intros [= ->]. apply build_table_invalid_index in Hb as [-> Hnd].
      split; [by apply repeated_index_ids|]. by rewrite app_nil_r.
    + intros Hraise.
      assert (e ≠ InvalidIndexError) as Hne
        by (by destruct Hraise as [[= ->]|[= ->]]).
      by rewrite (build_table_early d e Hb Hne).
Qed.

(** X10. A call that runs the pipeline requests title.basics, title.ratings
    and title.crew, in this order, and after them at most name.basics: when
    it returns, exactly if an identifier was collected; always, when it ends
    because an identifier is twice in the index of the lookup; never, when
    it ends at a merge or at the collection of identifiers.  It reads no
    chunk of name.basics when name.basics is not requested. *)
Theorem pipeline_network_footprint (force v : bool) (w : world) :
  notna (csv_file w) && negb force = false →
  let d := remote w in
  let relevant_ids := collect_ids (filtered_titles d) in
  let r := build_imdb_csv force v w in
  let titles := ["title.basics"; "title.ratings"; "title.crew"] in
  (downloads r.2 = downloads w ++ titles
   ∨ downloads r.2 = downloads w ++ titles ++ ["name.basics"])
  ∧ (∀ p, r.1 = Ok p →
       downloads r.2
       = downloads w ++ titles
         ++ if decide (relevant_ids = ∅) then [] else ["name.basics"])
  ∧ (r.1 = Raise InvalidIndexError →
     downloads r.2 = downloads w ++ titles ++ ["name.basics"])
  ∧ (r.1 = Raise AttributeError ∨ r.1 = Raise ValueError →
     downloads r.2 = downloads w ++ titles)
  ∧ chunks_read w ≤ chunks_read r.2
  ∧ (downloads r.2 = downloads w ++ titles → chunks_read r.2 = chunks_read w).
Proof.
  intros Hpipeline d relevant_ids r titles. unfold r.
  rewrite run_pipeline by done. cbn [fst snd].
  rewrite downloads_effects, chunks_read_effects.
  assert (downloads (if decide (verbose w ≠ v) then with_verbose v w else w)
          = downloads w) as -> by (by destruct (decide (verbose w ≠ v))).
  assert (chunks_read (if decide (verbose w ≠ v) then with_verbose v w else w)
          = chunks_read w) as -> by (by destruct (decide (verbose w ≠ v))).
  fold d.
  assert (pipeline_downloads d
          = titles ++ match typing d with
                      | Raise _ => []
                      | Ok _ => if decide (relevant_ids = ∅) then []
                                else ["name.basics"]
                      end) as -> by done.
  assert (∀ names : list string,
            downloads w ++ titles ++ names = downloads w ++ titles →
            names = []) as Hnone.
  { intros names Heq. rewrite (assoc_L app) in Heq.
    rewrite <- (app_nil_r (downloads w ++ titles)) in Heq at 2.
    by apply app_inv_head in Heq. }
  assert (pipeline_chunks d
          = match typing d with
            | Raise _ => 0
            | Ok _ => if decide (relevant_ids = ∅) then 0
                      else pipeline_chunks d
            end) as Hchunks.
  { unfold pipeline_chunks. cbv zeta. fold relevant_ids.
    destruct (typing d); [|done]. by destruct (decide _). }
  split; [|split; [|split; [|split; [|split; [lia|]]]]].
  - destruct (typing d); [|left; by rewrite app_nil_r].
    destruct (decide _); [left; by rewrite app_nil_r|by right].
  - intros p Hok. destruct (build_table d) as [table|e] eqn:Hb;
      [|discriminate Hok].
    by apply build_table_rows in Hb as (-> & _).
  - intros Hraise. destruct (build_table d) as [table|e] eqn:Hb;
      [discriminate Hraise|]. injection Hraise as ->.
    apply build_table_invalid_index in Hb as [-> Hnd].
    apply repeated_index_ids in Hnd. fold d relevant_ids in Hnd.
    by rewrite decide_False.
  - intros Hraise. destruct (build_table d) as [table|e] eqn:Hb;
      [by destruct Hraise|].
    assert (e ≠ InvalidIndexError) as Hne
      by (by destruct Hraise as [[= ->]|[= ->]]).
    rewrite (build_table_early d e Hb Hne). by rewrite app_nil_r.
  - intros Hnames%Hnone. rewrite Hchunks.
    destruct (typing d); [|lia].
    destruct (decide _); [lia|discriminate Hnames].
Qed.

(** X11. A call of the build that ends with an exception leaves the CSV
    file as it was, and it has run the pipeline.  The exception tells the
    cause: InvalidIndexError, that name.basics has an identifier on two
    rows with identifier and name; AttributeError, that the directors or
    the writers column of title.crew has rows but no present cell;
    ValueError, that the title identifiers of one of the title archives
    are all missing. *)
Theorem failed_build_keeps_the_file (force v : bool) (w : world) (e : exn) :
  (build_imdb_csv force v w).1 = Raise e →
  let d := remote w in
  let wholly_missing {A} (cells : list (option A)) : Prop :=
    cells ≠ [] ∧ ∀ c, c ∈ cells → c = None in
  csv_file (build_imdb_csv force v w).2 = csv_file w
  ∧ notna (csv_file w) && negb force = false
  ∧ pipeline_runs (build_imdb_csv force v w).2 = pipeline_runs w + 1
  ∧ (e = InvalidIndexError →
     ¬ NoDup (omap nconst
                (filter (λ p, is_Some (nconst p) ∧ is_Some (primaryName p))
                   (name_basics d))))
  ∧ (e = AttributeError →
     wholly_missing (c_directors <$> title_crew d)
     ∨ wholly_missing (c_writers <$> title_crew d))
  ∧ (e = ValueError →
     wholly_missing (b_tconst <$> title_basics d)
     ∨ wholly_missing (r_tconst <$> title_ratings d)
     ∨ wholly_missing (c_tconst <$> title_crew d)).
Proof.
  intros Hraise d wholly_missing.
  destruct (notna (csv_file w) && negb force) eqn:Hcached.
  { pose proof (run_build_imdb_csv force v w) as Hrun. cbv zeta in Hrun.
    rewrite Hcached in Hrun. rewrite Hrun in Hraise. discriminate Hraise. }
  destruct (build_pipeline force v w Hcached) as (w' & Hrun & _ & Hcsv & Hruns).
  rewrite Hrun in Hraise |- *. cbn [fst snd] in *. fold d in Hraise, Hcsv.
  destruct (build_table d) as [table|e'] eqn:Htable;
    [discriminate Hraise|]. injection Hraise as ->.
  split; [done|]. split; [done|]. split; [done|].
  unfold wholly_missing. split; [|split].
  - intros ->. apply build_table_invalid_index in Htable as [_ Hnd].
    intros Hfile. by apply Hnd, unique_file_index.
  - intros ->. apply build_table_early in Htable; [|done].
    apply typing_raise in Htable as [[? _]|[_ Hdt]]; [done|].
    rewrite <- !read_dtype_float64. exact Hdt.
  - intros ->. apply build_table_early in Htable; [|done].
    apply typing_raise in Htable as [[_ Hdt]|[? _]]; [|done].
    rewrite <- !read_dtype_float64. exact Hdt.
Qed.

(** X12. When the filtered titles name no person at all and the call
    returns, the run has requested the three title archives only and read
    no chunk, and every filtered title is written with missing directors
    and writers. *)
Theorem build_without_people (force v : bool) (w : world) (p : string) :
  notna (csv_file w) && negb force = false →
  collect_ids (filtered_titles (remote w)) = ∅ →
  (build_imdb_csv force v w).1 = Ok p →
  let r := build_imdb_csv force v w in
  p = CSV_PATH
  ∧ csv_file r.2
    = Some ((λ lt, astype_dtypes
                     (drop_columns
                        (with_writers (with_directors lt.2 None) None)))
              <$> filtered_titles (remote w))
  ∧ downloads r.2
    = downloads w ++ ["title.basics"; "title.ratings"; "title.crew"]
  ∧ chunks_read r.2 = chunks_read w.
Proof.
  intros Hpipeline Hnone Hok r. unfold r.
  rewrite run_pipeline in * by done. cbn [fst snd] in *.
  destruct (build_table (remote w)) as [table|e] eqn:Htable;
    [|discriminate Hok].
  apply build_table_rows in Htable as (Ht & _ & ->).
  rewrite csv_file_effects, downloads_effects, chunks_read_effects.
  unfold pipeline_downloads, pipeline_chunks. cbv zeta.
  rewrite Ht, Hnone, name_map_of_no_ids by done.
  split; [by injection Hok|]. split; [|split].
  - f_equal. apply list_fmap_ext. intros _ [l t] _.
    unfold rewritten. cbn [snd list_to_map foldr].
    by rewrite !rewrite_cell_empty.
  - destruct (decide (verbose w ≠ v)); by rewrite decide_True.
  - destruct (decide (verbose w ≠ v)); rewrite decide_True by done;
      by rewrite Nat.add_0_r.
Qed.

(** X13. Every row of the table written by a run of the pipeline comes from
    one filtered title, in order and with none left out: it has a runtime,
    a start year of 1930 or later and at least 1000 votes; its titles,
    year, runtime, genres and votes are those of the merged row, and its
    rating is the rating of the merged row rounded to single precision. *)
Theorem written_rows_meet_the_filter (force v : bool) (w : world)
    (p : string) :
  notna (csv_file w) && negb force = false →
  (build_imdb_csv force v w).1 = Ok p →
  ∃ table,
    csv_file (build_imdb_csv force v w).2 = Some table
    ∧ length table = length (filtered_titles (remote w))
    ∧ Forall (λ m, is_Some (m_runtimeMinutes m)
                   ∧ (∃ y, m_startYear m = Some y ∧ (1930 ≤ y)%Z)
                   ∧ (∃ n, m_numVotes m = Some n ∧ (1000 ≤ n)%Z)) table
    ∧ Forall2 (λ m lt,
         m_primaryTitle m = primaryTitle lt.2
         ∧ m_originalTitle m = originalTitle lt.2
         ∧ m_startYear m = startYear lt.2
         ∧ m_runtimeMinutes m = runtimeMinutes lt.2
         ∧ m_genres m = genres lt.2
         ∧ m_averageRating m = float32_of <$> averageRating lt.2
         ∧ m_numVotes m = numVotes lt.2)
       table (filtered_titles (remote w)).
Proof.
  intros Hpipeline Hok. rewrite run_pipeline in * by done.
  cbn [fst snd] in *. rewrite csv_file_effects.
  destruct (build_table (remote w)) as [table|e] eqn:Htable;
    [|discriminate Hok].
  apply build_table_rows in Htable as (_ & _ & ->).
  eexists. split; [done|]. split; [by rewrite length_fmap|]. split.
  - apply Forall_fmap, Forall_forall. intros [l t] Hin.
    unfold filtered_titles, filter_titles in Hin.
    apply list_elem_of_filter in Hin as [Hmask _]. cbn [snd] in Hmask.
    apply title_mask_spec in Hmask as (_ & _ & Hrun & Hyear & Hvotes).
    done.
  - apply Forall2_fmap_l, Forall_Forall2_diag, Forall_forall.
    by intros [l t] _.
Qed.

(** X16. When each of the three title archives has a row with a title
    identifier, title.crew has a row that names a director and a row that
    names a writer, and no identifier is on two rows of name.basics that
    have identifier and name, the call returns the path, and a run of the
    pipeline writes every filtered title rewritten under the lookup. *)
Theorem build_succeeds_on_unique_identifiers (force v : bool) (w : world) :
  let d := remote w in
  (∃ b, b ∈ title_basics d ∧ is_Some (b_tconst b)) →
  (∃ r, r ∈ title_ratings d ∧ is_Some (r_tconst r)) →
  (∃ c, c ∈ title_crew d ∧ is_Some (c_tconst c)) →
  (∃ c, c ∈ title_crew d ∧ is_Some (c_directors c)) →
  (∃ c, c ∈ title_crew d ∧ is_Some (c_writers c)) →
  NoDup (omap nconst
           (filter (λ p, is_Some (nconst p) ∧ is_Some (primaryName p))
              (name_basics d))) →
  let r := build_imdb_csv force v w in
  r.1 = Ok CSV_PATH
  ∧ is_Some (csv_file r.2)
  ∧ (notna (csv_file w) && negb force = false →
     csv_file r.2
     = Some ((λ lt, rewritten (list_to_map (name_map_of d)) lt.2)
               <$> filtered_titles d)).
Proof.
  intros d Hb Hr Hc Hcd Hcw Hfile r.
  pose proof (typing_Ok d Hb Hr Hc Hcd Hcw) as Ht.
  pose proof (unique_file_index d Hfile) as Hindex.
  unfold r. destruct (notna (csv_file w) && negb force) eqn:Hcached.
  - pose proof (run_build_imdb_csv force v w) as Hrun. cbv zeta in Hrun.
    rewrite Hcached in Hrun. rewrite Hrun. cbn [fst snd].
    rewrite csv_file_effects. split; [done|]. split; [|done].
    apply andb_true_iff in Hcached as [Hfound _].
    by destruct (csv_file w).
  - rewrite run_pipeline by done. fold d.
    rewrite build_table_unique by done. cbn [fst snd].
    rewrite csv_file_effects. split; [done|]. split; [by eexists|done].
Qed.

(** X17. The lookup of a run and the file: its keys are the collected
    identifiers that are on a row of name.basics with identifier and name,
    and each of its names is the name on such a row of the identifier, as
    it stands or followed by a number in parentheses. *)
Theorem lookup_keys_of_a_run (d : datasets) :
  (∀ i, i ∈ (name_map_of d).*1 ↔
     i ∈ collect_ids (filtered_titles d)
     ∧ ∃ p, p ∈ name_basics d ∧ nconst p = Some i ∧ is_Some (primaryName p))
  ∧ (∀ i n, (i, n) ∈ name_map_of d →
       ∃ n0, Person (Some i) (Some n0) ∈ name_basics d
             ∧ (n = n0 ∨ ∃ k : nat, n = n0 +:+ " (" +:+ pretty k +:+ ")")).
Proof.
  split.
  - intros i. rewrite name_map_of_index.
    unfold relevant_people_of. cbv zeta.
    destruct (decide (collect_ids (filtered_titles d) = ∅)) as [He|He].
    { rewrite He. split; [by intros ?%elem_of_nil|].
      by intros [?%elem_of_empty _]. }
    transitivity (i ∈ nconst_set
      (scan_people (collect_ids (filtered_titles d))
         (read_chunks chunksize (name_basics d))).1).
    { unfold nconst_set. by rewrite elem_of_list_to_set. }
    destruct (scan_people_found (collect_ids (filtered_titles d))
                (read_chunks chunksize (name_basics d))) as [-> _].
    rewrite valid_ids_read_chunks, elem_of_intersection, elem_of_nconst_set.
    split; intros [Hw (p & Hp & Hi)]; (split; [done|]).
    + apply list_elem_of_filter in Hp as [[_ Hname] Hp]. by exists p.
    + destruct Hi as [Hi Hname]. exists p. split; [|done].
      apply list_elem_of_filter. split; [|done]. split; [|done].
      rewrite Hi. by eexists.
  - intros i n Hin.
    pose proof (relevant_people_complete d) as Hrows.
    pose proof (relevant_people_sublist d) as Hsub.
    unfold name_map_of in Hin.
    destruct (relevant_people_of d) as [|p0 people0] eqn:Hp;
      [by apply elem_of_nil in Hin|].
    set (people := p0 :: people0) in *. clearbody people.
    unfold name_map in Hin. apply list_elem_of_omap in Hin as (q & Hq & Hqi).
    apply list_elem_of_lookup in Hq as [j Hj].
    destruct (people !! j) as [p|] eqn:Hpj.
    2:{ apply lookup_ge_None in Hpj. apply lookup_lt_Some in Hj.
        rewrite disambiguate_people_length in Hj. lia. }
    rewrite (disambiguate_people_lookup people j p Hpj) in Hj.
    injection Hj as <-.
    rewrite Forall_forall in Hrows.
    assert (p ∈ people) as Hpin by by eapply list_elem_of_lookup_2.
    destruct (Hrows p Hpin) as [[i0 Hi0] [n0 Hn0]].
    assert (p ∈ name_basics d) as Hfile.
    { assert (p ∈ dropna_people (name_basics d)) as Hd
        by by eapply elem_of_sublist.
      by apply list_elem_of_filter in Hd as [_ Hd]. }
    exists n0. cbn [set_primaryName nconst primaryName] in Hqi.
    rewrite Hi0, Hn0 in Hqi. cbn [disambiguated] in Hqi.
    destruct p as [pi pn]. cbn in Hi0, Hn0. subst pi pn.
    destruct (decide (n0 ∉ _)); injection Hqi as <- <-;
      (split; [done|]); [by left|right; by eexists].
Qed.

End after_build.

Lemma quiet_build_console_witness :
  console (@build_imdb_csv Sample.seed false false
             (Sample.fresh sample_no_writers)).2
  = [Building; Downloading "title.basics"; Downloading "title.ratings";
     Downloading "title.crew"].
Proof.
  destruct (@quiet_build_console Sample.seed false
              (Sample.fresh sample_no_writers)) as [_ Hrun].
  destruct Hrun as (_ & _ & Hearly); [reflexivity|].
  rewrite Hearly; [reflexivity|]. left. vm_compute. reflexivity.
Defined.

Lemma pipeline_network_footprint_witness :
  downloads (@build_imdb_csv Sample.seed false false
               (Sample.fresh Sample.two_titles)).2
  = ["title.basics"; "title.ratings"; "title.crew"; "name.basics"]
  ∧ downloads (@build_imdb_csv Sample.seed false false
                 (Sample.fresh sample_no_writers)).2
    = ["title.basics"; "title.ratings"; "title.crew"].
Proof.
  split.
  - destruct (@pipeline_network_footprint Sample.seed false false
                (Sample.fresh Sample.two_titles)) as (_ & Hok & _);
      [reflexivity|].
    rewrite (Hok CSV_PATH); vm_compute; reflexivity.
  - destruct (@pipeline_network_footprint Sample.seed false false
                (Sample.fresh sample_no_writers)) as (_ & _ & _ & Hearly & _);
      [reflexivity|].
    rewrite Hearly; [reflexivity|]. left. vm_compute. reflexivity.
Defined.

Lemma failed_build_keeps_the_file_witness :
  csv_file (@build_imdb_csv Sample.seed true false
              {| remote := sample_no_writers; csv_file := Some [];
                 verbose := false; console := []; downloads := [];
                 chunks_read := 0 |}).2
  = Some [].
Proof.
  destruct (@failed_build_keeps_the_file Sample.seed true false
              {| remote := sample_no_writers; csv_file := Some [];
                 verbose := false; console := []; downloads := [];
                 chunks_read := 0 |} AttributeError) as [Hfile _].
  - vm_compute. reflexivity.
  - exact Hfile.
Defined.

Lemma build_without_people_witness :
  m_writers <$> default [] (csv_file (@build_imdb_csv Sample.seed false true
                                        (Sample.fresh sample_no_crew)).2)
  = [None].
Proof.
  destruct (@build_without_people Sample.seed false true
              (Sample.fresh sample_no_crew) CSV_PATH) as (_ & Hfile & _).
  - reflexivity.
  - vm_compute. reflexivity.
  - vm_compute. reflexivity.
  - rewrite Hfile. vm_compute. reflexivity.
Defined.

Lemma written_rows_meet_the_filter_witness :
  ∃ table,
    csv_file (@build_imdb_csv Sample.seed false false
                (Sample.fresh sample_rating)).2 = Some table
    ∧ m_averageRating <$> table = [Some 0x1.c7e6b8p+2%float].
Proof.
  destruct (@written_rows_meet_the_filter Sample.seed false false
              (Sample.fresh sample_rating) CSV_PATH)
    as (table & Hfile & _ & _ & Hrows).
  - reflexivity.
  - vm_compute. reflexivity.
  - exists table. split; [exact Hfile|].
    assert (Some table
            = csv_file (@build_imdb_csv Sample.seed false false
                          (Sample.fresh sample_rating)).2) as Heq
      by by rewrite Hfile.
    vm_compute in Heq. injection Heq as ->. vm_compute. reflexivity.
Defined.

Lemma build_succeeds_on_unique_identifiers_witness :
  (@build_imdb_csv Sample.seed false false
     (Sample.fresh Sample.two_titles)).1 = Ok CSV_PATH.
Proof.
  destruct (@build_succeeds_on_unique_identifiers Sample.seed false false
              (Sample.fresh Sample.two_titles)) as [Hok _].
  - eexists. split; [left|]. by eexists.
  - eexists. split; [left|]. by eexists.
  - eexists. split; [left|]. by eexists.
  - eexists. split; [left|]. by eexists.
  - eexists. split; [right; left|]. by eexists.
  - apply (bool_decide_unpack _). vm_compute. reflexivity.
  - exact Hok.
Defined.

(** ** The entry point *)

Section entry_point.
Context `{PyHash} {T : Type}.
Variable read_csv : option (list movie) → result T.

Lemma run_get_imdb_data (force v : bool) (w : world) :
  get_imdb_data read_csv force v w
  = match build_imdb_csv force v (with_verbose v w) with
    | (Ok _, w') => (read_csv (csv_file w'), w')
    | (Raise e, w') => (Raise e, w')
    end.
Proof.
  unfold get_imdb_data.
  change (set_verbosity v;; ?k) with (set_verbosity v ≫= λ _, k).
  unfold mbind at 1, M_bind at 1. unfold set_verbosity at 1. cbv iota beta.
  unfold mbind at 1, M_bind at 1.
  destruct (build_imdb_csv force v (with_verbose v w)) as [[p|e] w'];
    [|done].
  reflexivity.
Qed.

Lemma build_ok_file (force v : bool) (w : world) (p : string) :
  (build_imdb_csv force v w).1 = Ok p →
  is_Some (csv_file (build_imdb_csv force v w).2).
Proof.
  intros Hok. destruct (notna (csv_file w) && negb force) eqn:Hcached.
  - pose proof (run_build_imdb_csv force v w) as Hrun. cbv zeta in Hrun.
    rewrite Hcached in Hrun. rewrite Hrun. cbn [snd].
    rewrite csv_file_effects.
    apply andb_true_iff in Hcached as [Hfile _].
    by destruct (csv_file w).
  - rewrite run_pipeline in * by done. cbn [fst snd] in *.
    rewrite csv_file_effects.
    by destruct (build_table (remote w)).
Qed.

(** X14. The entry point reads the file only after a build that returned,
    and then always a file that exists; a second call without force returns
    what the first one did, prints one line, and requests no archive, reads
    no chunk and leaves the file alone. *)
Theorem get_imdb_data_again (force v v' : bool) (w : world) (df : T) :
  (get_imdb_data read_csv force v w).1 = Ok df →
  let w1 := (get_imdb_data read_csv force v w).2 in
  let r := get_imdb_data read_csv false v' w1 in
  (∃ table, csv_file w1 = Some table ∧ read_csv (Some table) = Ok df)
  ∧ verbose w1 = v
  ∧ r.1 = Ok df
  ∧ csv_file r.2 = csv_file w1
  ∧ console r.2 = console w1 ++ [UsingCached]
  ∧ downloads r.2 = downloads w1
  ∧ chunks_read r.2 = chunks_read w1
  ∧ verbose r.2 = v'.
Proof.
  intros Hok w1 r.
  assert (∃ table, csv_file w1 = Some table ∧ read_csv (Some table) = Ok df
                   ∧ verbose w1 = v) as (table & Hfile & Hread & Hv).
  { unfold w1. rewrite run_get_imdb_data in Hok |- *.
    pose proof (build_ok_file force v (with_verbose v w)) as Hsome.
    destruct (run_build force (with_verbose v w))
      as (outcome & file & entries & names & n & Hrun).
    specialize (Hrun v). rewrite Hrun in *. cbn [fst snd] in *.
    rewrite decide_False in * by (cbn; by intros []).
    destruct outcome as [p|e]; [|discriminate Hok]. cbn [fst snd] in *.
    destruct (Hsome p eq_refl) as [table Htable].
    exists table. rewrite Htable in Hok. by rewrite verbose_effects. }
  split; [by exists table|]. split; [done|].
  unfold r. rewrite run_get_imdb_data.
  pose proof (run_build_imdb_csv false v' (with_verbose v' w1)) as Hrun.
  cbv zeta in Hrun.
  replace (csv_file (with_verbose v' w1)) with (Some table) in Hrun
    by (by rewrite <- Hfile).
  cbn [notna negb andb] in Hrun. rewrite Hrun.
  rewrite decide_False by (cbn; by intros []).
  cbn [fst snd]. rewrite csv_file_effects, console_effects,
    downloads_effects, chunks_read_effects, verbose_effects, printed_cons.
  cbn [with_verbose verbose console downloads chunks_read csv_file andb app].
  rewrite Hread, Hfile, app_nil_r, Nat.add_0_r. done.
Qed.

End entry_point.

Lemma get_imdb_data_again_witness :
  (@get_imdb_data Sample.seed _ sample_read_csv false false
     (@get_imdb_data Sample.seed _ sample_read_csv false true
        (Sample.fresh Sample.two_titles)).2).1
  = Ok [Some "One"].
Proof.
  destruct (@get_imdb_data_again Sample.seed _ sample_read_csv false true false
              (Sample.fresh Sample.two_titles) [Some "One"])
    as (_ & _ & Hr & _).
  - vm_compute. reflexivity.
  - exact Hr.
Defined.

(** ** Printed counts *)

Lemma group_thousands_step (a b c d : ascii) (rest : list ascii) :
  group_thousands (a :: b :: c :: d :: rest)
  = a :: b :: c :: ","%char :: group_thousands (d :: rest).
Proof. done. Qed.

Lemma group_thousands_short (digits : list ascii) :
  length digits ≤ 3 → group_thousands digits = digits.
Proof.
  destruct digits as [|a [|b [|c [|d rest]]]]; try done.
  cbn [length]. lia.
Qed.

Lemma group_thousands_ind (P : list ascii → Prop) :
  (∀ digits, length digits ≤ 3 → P digits) →
  (∀ a b c d rest, P (d :: rest) → P (a :: b :: c :: d :: rest)) →
  ∀ digits, P digits.
Proof.
  intros Hshort Hstep digits.
  cut (∀ n digits, length digits ≤ n → P digits); [by eauto|].
  clear digits. induction n as [|n IH]; intros digits Hlen.
  { apply Hshort. lia. }
  destruct digits as [|a [|b [|c [|d rest]]]];
    try (apply Hshort; cbn [length]; lia).
  apply Hstep, IH. cbn [length] in *. lia.
Qed.

Lemma filter_no_comma (digits : list ascii) :
  (","%char ∉ digits) → filter (λ c, c ≠ ","%char) digits = digits.
Proof.
  induction digits as [|a digits IH]; [done|].
  rewrite not_elem_of_cons. intros [Ha Hno].
  rewrite filter_cons_True by done. by rewrite IH.
Qed.

Lemma group_thousands_digits (digits : list ascii) :
  (","%char ∉ digits) →
  filter (λ c, c ≠ ","%char) (group_thousands digits) = digits.
Proof.
  induction digits as [digits Hlen|a b c d rest IH] using group_thousands_ind.
  - intros Hno. rewrite group_thousands_short by done.
    by apply filter_no_comma.
  - intros Hno. rewrite group_thousands_step.
    rewrite !not_elem_of_cons in Hno. destruct Hno as (? & ? & ? & ? & ?).
    rewrite !filter_cons_True by done.
    rewrite filter_cons_False by (by intros []).
    rewrite IH; [done|]. rewrite not_elem_of_cons. done.
Qed.

Lemma group_thousands_commas (digits : list ascii) (i : nat) (c : ascii) :
  (","%char ∉ digits) →
  group_thousands digits !! i = Some c →
  c = ","%char ↔ i `mod` 4 = 3.
Proof.
  revert i.
  induction digits as [digits Hlen|a b c' d rest IH] using group_thousands_ind;
    intros i Hno Hi.
  - rewrite group_thousands_short in Hi by done.
    apply lookup_lt_Some in Hi as Hlt.
    apply list_elem_of_lookup_2 in Hi.
    split; [by intros ->|]. intros Hmod.
    rewrite Nat.mod_small in Hmod by lia. lia.
  - rewrite group_thousands_step in Hi.
    rewrite !not_elem_of_cons in Hno. destruct Hno as (? & ? & ? & ? & ?).
    destruct i as [|[|[|[|i]]]]; cbn [lookup list_lookup] in Hi.
    + injection Hi as <-. split; [done|]. intros Hmod.
      by vm_compute in Hmod.
    + injection Hi as <-. split; [done|]. intros Hmod.
      by vm_compute in Hmod.
    + injection Hi as <-. split; [done|]. intros Hmod.
      by vm_compute in Hmod.
    + by injection Hi as <-.
    + change (S (S (S (S i)))) with (4 + i).
      replace ((4 + i) `mod` 4) with (i `mod` 4)
        by (rewrite <- (Nat.Div0.mod_add i 1 4); f_equal; lia).
      apply IH; [|done]. rewrite not_elem_of_cons. done.
Qed.

Lemma pretty_N_go_no_comma (x : N) (s : string) :
  (","%char ∉ list_ascii_of_string s) →
  ","%char ∉ list_ascii_of_string (pretty_N_go x s).
Proof.
  revert s. induction (N.lt_wf_0 x) as [x _ IH]. intros s Hs.
  assert (x = 0 ∨ 0 < x)%N as [->|Hpos] by lia.
  - by rewrite pretty_N_go_0.
  - rewrite pretty_N_go_step by done. apply IH.
    { by apply N.div_lt. }
    cbn [list_ascii_of_string]. rewrite not_elem_of_cons. split; [|done].
    unfold pretty_N_char. by repeat case_match.
Qed.

Lemma pretty_no_comma (value : nat) :
  ","%char ∉ list_ascii_of_string (pretty value).
Proof.
  unfold pretty, pretty_nat, pretty, pretty_N.
  destruct (decide (N.of_nat value = 0%N)).
  - cbn. rewrite not_elem_of_cons. split; [done|]. apply not_elem_of_nil.
  - apply pretty_N_go_no_comma. cbn. apply not_elem_of_nil.
Qed.

Lemma pretty_N_go_length (k : nat) : ∀ (x : N) (s : string),
  (x < 10 ^ N.of_nat k)%N →
  String.length (pretty_N_go x s) ≤ k + String.length s.
Proof.
  induction k as [|k IH]; intros x s Hx.
  - assert (x = 0%N) as -> by (cbn in Hx; lia).
    rewrite pretty_N_go_0. lia.
  - assert (x = 0 ∨ 0 < x)%N as [->|Hpos] by lia.
    { rewrite pretty_N_go_0. lia. }
    rewrite pretty_N_go_step by done.
    etrans; [apply IH|cbn [String.length]; lia].
    apply N.Div0.div_lt_upper_bound.
    rewrite Nat2N.inj_succ, N.pow_succ_r' in Hx. lia.
Qed.

Lemma length_list_ascii_of_string (s : string) :
  length (list_ascii_of_string s) = String.length s.
Proof. induction s as [|a s IH]; [done|]. cbn. by rewrite IH. Qed.

(** X15. The count that is printed has the decimal digits of the value, in
    order, with a comma before every group of three digits counted from the
    right and nowhere else; different values are printed differently, and a
    value below 1000 is printed as it is. *)
Theorem format_count_groups_of_three (value : nat) :
  let out := list_ascii_of_string (format_count value) in
  filter (λ c, c ≠ ","%char) out = list_ascii_of_string (pretty value)
  ∧ (∀ i c, reverse out !! i = Some c → c = ","%char ↔ i `mod` 4 = 3)
  ∧ (∀ other, format_count other = format_count value → other = value)
  ∧ (value < 1000 → format_count value = pretty value).
Proof.
  assert (∀ n, filter (λ c, c ≠ ","%char)
                 (list_ascii_of_string (format_count n))
               = list_ascii_of_string (pretty n)) as Hdigits.
  { intros n. unfold format_count.
    rewrite list_ascii_of_string_of_list_ascii, filter_reverse.
    rewrite group_thousands_digits, reverse_involutive; [done|].
    rewrite elem_of_reverse. apply pretty_no_comma. }
  cbv zeta. split; [apply Hdigits|]. split; [|split].
  - intros i c. unfold format_count.
    rewrite list_ascii_of_string_of_list_ascii, reverse_involutive.
    apply group_thousands_commas.
    rewrite elem_of_reverse. apply pretty_no_comma.
  - intros other Heq.
    apply (inj pretty).
    rewrite <- (string_of_list_ascii_of_string (pretty other)),
      <- (string_of_list_ascii_of_string (pretty value)).
    by rewrite <- !Hdigits, Heq.
  - intros Hlt. unfold format_count.
    rewrite group_thousands_short, reverse_involutive.
    { apply string_of_list_ascii_of_string. }
    rewrite length_reverse, length_list_ascii_of_string.
    unfold pretty, pretty_nat, pretty, pretty_N.
    destruct (decide (N.of_nat value = 0%N)); [cbn; lia|].
    etrans; [apply (pretty_N_go_length 3)|cbn; lia].
    change (10 ^ N.of_nat 3)%N with 1000%N. lia.
Qed.

